(** * Document summarisation backend: text extraction, chunking,
      summary orchestration and relevance highlighting.

    A shallow embedding of [extract.py], [summarize.py] and [highlight.py],
    and of the two helpers of [app.py] ([allowed_file], [get_length_params]).
    Python strings are lists of Unicode code points, Python integers are [Z],
    Python floats are binary64 primitive floats.  The external capabilities
    (the summarisation pipeline, NLTK's tokenizer, scikit-learn's TF-IDF and
    cosine similarity, NumPy's [argsort], pdfplumber's pages) are parameters
    of the functions that call them. *)

From Stdlib Require Import String Ascii.
From Stdlib Require Import ZArith NArith List Bool Lia.
From Stdlib Require Import Floats Sorted FinFun.
Import ListNotations.
Local Open Scope Z_scope.
Set Warnings "-inexact-float".

(** ** The Python primitives the sources rely on *)

Module Py.

(** A [str] is a sequence of code points. *)
Definition char := N.
Definition str := list char.

(** String literals of the sources (all of them ASCII). *)
Definition lit (s : string) : str := map N_of_ascii (list_ascii_of_string s).

(** [len(x)] *)
Definition len {A : Type} (l : list A) : Z := Z.of_nat (length l).

(** Truthiness of a sequence: [if x:] *)
Definition truthy {A : Type} (l : list A) : bool :=
  match l with [] => false | _ :: _ => true end.

(** An exception carries its message. *)
Definition exn := string.

(** Outcome of a call that may raise. *)
Inductive result (A : Type) : Type :=
| Returned (a : A)
| Raised (e : exn).
Arguments Returned {A} a.
Arguments Raised {A} e.

(** [str.isspace] on one code point; this is also the class [\s] of [re]
    on [str] patterns. *)
Definition is_space (c : char) : bool :=
  ((9 <=? c) && (c <=? 13) || (28 <=? c) && (c <=? 32)
   || (c =? 133) || (c =? 160) || (c =? 5760)
   || (8192 <=? c) && (c <=? 8202)
   || (c =? 8232) || (c =? 8233) || (c =? 8239) || (c =? 8287)
   || (c =? 12288))%N.

(** Slice bounds: a negative bound counts from the end, then both are
    clipped to [0, n]. *)
Definition adjust_index (n i : Z) : Z :=
  if i <? 0 then Z.max 0 (i + n) else Z.min i n.

(** [l[lo:hi]]; [None] is an omitted bound. *)
Definition slice {A : Type} (l : list A) (lo hi : option Z) : list A :=
  let n := len l in
  let lo' := match lo with Some i => adjust_index n i | None => 0 end in
  let hi' := match hi with Some i => adjust_index n i | None => n end in
  firstn (Z.to_nat (hi' - lo')) (skipn (Z.to_nat lo') l).

Fixpoint starts_with (sub t : str) : bool :=
  match sub, t with
  | [], _ => true
  | _ :: _, [] => false
  | c :: sub', d :: t' => N.eqb c d && starts_with sub' t'
  end.

(** Candidates [lo + cands - 1], ..., [lo], highest first. *)
Fixpoint rfind_scan (text sub : str) (lo : Z) (cands : nat) : Z :=
  match cands with
  | O => -1
  | S c =>
      let i := lo + Z.of_nat c in
      if starts_with sub (skipn (Z.to_nat i) text) then i
      else rfind_scan text sub lo c
  end.

(** [text.rfind(sub, start, end)]: the highest index [i] with
    [start <= i], [i + len(sub) <= end] and [text[i:i+len(sub)] == sub]
    after the bounds are adjusted as for a slice, or [-1]. *)
Definition rfind (text sub : str) (start end_ : Z) : Z :=
  let n := len text in
  let e := if n <? end_ then n
           else if end_ <? 0 then Z.max 0 (end_ + n) else end_ in
  let s := if start <? 0 then Z.max 0 (start + n) else start in
  if e - s <? len sub then -1
  else rfind_scan text sub s (Z.to_nat (e - s - len sub + 1)).

Fixpoint lstrip (s : str) : str :=
  match s with
  | [] => []
  | c :: s' => if is_space c then lstrip s' else s
  end.

Definition rstrip (s : str) : str := rev (lstrip (rev s)).

(** [s.strip()] *)
Definition strip (s : str) : str := rstrip (lstrip s).

Fixpoint split_words (cur s : str) : list str :=
  match s with
  | [] => if truthy cur then [cur] else []
  | c :: s' =>
      if is_space c
      then (if truthy cur then cur :: split_words [] s' else split_words [] s')
      else split_words (cur ++ [c]) s'
  end.

(** [s.split()]: the maximal runs of non-whitespace. *)
Definition split (s : str) : list str := split_words [] s.

(** [sep.join(parts)] *)
Fixpoint join (sep : str) (parts : list str) : str :=
  match parts with
  | [] => []
  | [p] => p
  | p :: rest => p ++ sep ++ join sep rest
  end.

End Py.

Import Py.

(** ** summarize.py *)

Module Summarize.

Definition newline : str := lit (String (ascii_of_nat 10) EmptyString).

Section Chunker.

Variable text : str.
Variable approx_chars : Z.

(** The body of the [while] loop up to the slice: the [end] it settles on. *)
Definition chunk_end (start : Z) : Z :=
  let n := len text in
  let end_ := Z.min n (start + approx_chars) in
  if end_ <? n then
    let split_at := rfind text newline start end_ in
    let split_at :=
      if split_at =? -1 then rfind text (lit ". ") start end_ else split_at in
    let split_at :=
      if split_at =? -1 then rfind text (lit " ") start end_ else split_at in
    let split_at := if split_at =? -1 then end_ else split_at + 1 in
    split_at
  else end_.

(** The two statements that close the loop body:
    [start = end] and then [if start == end: start += 1]. *)
Definition next_start (end_ : Z) : Z :=
  let start := end_ in
  if start =? end_ then start + 1 else start.

(** [text[start:end]] of one iteration, before [strip]. *)
Definition raw_slice (start : Z) : str :=
  slice text (Some start) (Some (chunk_end start)).

(** One iteration: the list of chunks after it and the next [start]. *)
Definition chunk_iteration (chunks : list str) (start : Z) : list str * Z :=
  let end_ := chunk_end start in
  let chunk := strip (slice text (Some start) (Some end_)) in
  let chunks := if truthy chunk then chunks ++ [chunk] else chunks in
  (chunks, next_start end_).

(** [while start < n: ...]; [None] when the fuel runs out first. *)
Fixpoint chunk_loop (fuel : nat) (chunks : list str) (start : Z)
  : option (list str) :=
  match fuel with
  | O => None
  | S fuel' =>
      if start <? len text then
        let '(chunks', start') := chunk_iteration chunks start in
        chunk_loop fuel' chunks' start'
      else Some chunks
  end.

Definition chunk_text_by_tokens (fuel : nat) : option (list str) :=
  chunk_loop fuel [] 0.

(** The same run, recording the untrimmed [text[start:end]] of every
    iteration instead of the chunks. *)
Fixpoint slice_loop (fuel : nat) (start : Z) : option (list str) :=
  match fuel with
  | O => None
  | S fuel' =>
      if start <? len text then
        option_map (cons (raw_slice start))
          (slice_loop fuel' (next_start (chunk_end start)))
      else Some []
  end.

Definition chunk_slices (fuel : nat) : option (list str) :=
  slice_loop fuel 0.

End Chunker.

Definition no_content : str := lit "No content to summarize.".

Section Orchestrator.

(** The module-level [summarizer] pipeline, called as
    [summarizer(text, max_length=..., min_length=..., do_sample=False)]
    and read through [out[0]['summary_text']]: it returns the summary
    text or raises. *)
Variable summarizer : str -> Z -> Z -> result str.

(** The body of the [for] loop over the chunks: what is appended to
    [summaries] for one chunk. *)
Definition partial_summary (summary_max_length summary_min_length : Z)
    (chunk : str) : str :=
  if len (split chunk) <? 10 then chunk
  else
    match summarizer chunk (Z.min 100 summary_max_length)
            (Z.min 20 summary_min_length) with
    | Returned summary_text => summary_text
    | Raised _ => slice chunk None (Some 100)
    end.

(** [generate_summary]; [fuel] bounds the chunking loop, [None] when the
    chunking does not finish within it. *)
Definition generate_summary (fuel : nat) (text : str)
    (max_chunk_chars summary_max_length summary_min_length : Z)
  : option (result str) :=
  if len text <? 150 then
    Some (Returned (slice text None (Some summary_max_length)))
  else if len text <? 2000 then
    match summarizer text summary_max_length summary_min_length with
    | Returned summary_text => Some (Returned summary_text)
    | Raised _ => Some (Returned (slice text None (Some summary_max_length)))
    end
  else
    match chunk_text_by_tokens text max_chunk_chars fuel with
    | None => None
    | Some chunks =>
        if negb (truthy chunks) then Some (Returned no_content)
        else
          let summaries :=
            map (partial_summary summary_max_length summary_min_length)
                chunks in
          if len summaries =? 1 then
            Some (Returned (nth 0 summaries []))
          else
            let combined := join (lit " ") summaries in
            Some (Returned (slice combined None (Some summary_max_length)))
    end.

End Orchestrator.

End Summarize.


(** ** extract.py *)

Module Extract.

(** What [page.extract_text()] does on one page of the opened document. *)
Inductive page : Type :=
| PageText (page_text : str)
| PageNone
| PageRaises (e : exn).

(** [for page in pdf.pages: ...] with the accumulator [text]. *)
Fixpoint pages_loop (text : str) (pages : list page) : result str :=
  match pages with
  | [] => Returned text
  | PageRaises e :: _ => Raised e
  | PageNone :: rest => pages_loop text rest
  | PageText page_text :: rest =>
      if truthy page_text
      then pages_loop (text ++ page_text ++ Summarize.newline) rest
      else pages_loop text rest
  end.

(** [fileobj] stands for what [pdfplumber.open(fileobj)] gives: the pages
    of the document, or the exception it raises. *)
Definition extract_text_from_pdf_fileobj (fileobj : result (list page))
  : result str :=
  let wrap (e : exn) : exn := ("PDF extraction failed: " ++ e)%string in
  match fileobj with
  | Raised e => Raised (wrap e)
  | Returned pages =>
      match pages_loop [] pages with
      | Raised e => Raised (wrap e)
      | Returned text => Returned text
      end
  end.

(** A page as the page extractor capability presents it: some text or
    none. *)
Definition page_of (t : option str) : page :=
  match t with Some page_text => PageText page_text | None => PageNone end.

(** The texts of the pages that yield text, in page order. *)
Fixpoint yielded (pages : list (option str)) : list str :=
  match pages with
  | [] => []
  | Some page_text :: rest =>
      if truthy page_text then page_text :: yielded rest else yielded rest
  | None :: rest => yielded rest
  end.

(** The specification's wording: the yielded texts with a newline
    separator between them. *)
Definition newline_separated (pages : list (option str)) : str :=
  join Summarize.newline (yielded pages).

(** What the loop builds: every yielded text followed by a newline. *)
Definition newline_terminated (pages : list (option str)) : str :=
  concat (map (fun page_text => page_text ++ Summarize.newline) (yielded pages)).

End Extract.

(** ** highlight.py *)

Module Highlight.

Local Open Scope float_scope.

(** One entry of the returned list:
    [{"index": ..., "sentence": ..., "score": ...}]. *)
Record highlight : Type := Build_highlight
  { index : Z; sentence : str; score : float }.

(** [l[i]] for a non-negative [i]; out of range raises [IndexError]. *)
Definition getitem {A : Type} (l : list A) (i : nat) : result A :=
  match nth_error l i with
  | Some a => Returned a
  | None => Raised "IndexError"%string
  end.

(** A list comprehension whose element expression may raise. *)
Fixpoint comprehension {A B : Type} (f : A -> result B) (l : list A)
  : result (list B) :=
  match l with
  | [] => Returned []
  | a :: rest =>
      match f a with
      | Raised e => Raised e
      | Returned b =>
          match comprehension f rest with
          | Raised e => Raised e
          | Returned bs => Returned (b :: bs)
          end
      end
  end.

(** [[s.strip() for s in sentences if s.strip()]] *)
Definition stripped_nonempty (sentences : list str) : list str :=
  filter truthy (map strip sentences).

(** The regex fallback [re.split(r'(?<=[.!?])\s+', text)]: a separator is
    a maximal run of whitespace that follows one of [.], [!], [?]. *)
Inductive scan_state : Type := AfterPunct | AfterOther | InSeparator.

Definition is_sentence_end (c : char) : bool :=
  ((c =? 46) || (c =? 33) || (c =? 63))%N.

Definition after (c : char) : scan_state :=
  if is_sentence_end c then AfterPunct else AfterOther.

Fixpoint re_split_scan (st : scan_state) (piece : str) (text : str)
  : list str :=
  match text with
  | [] => [piece]
  | c :: rest =>
      match st with
      | InSeparator =>
          if is_space c then re_split_scan InSeparator piece rest
          else re_split_scan (after c) (piece ++ [c]) rest
      | AfterPunct =>
          if is_space c then piece :: re_split_scan InSeparator [] rest
          else re_split_scan (after c) (piece ++ [c]) rest
      | AfterOther => re_split_scan (after c) (piece ++ [c]) rest
      end
  end.

Definition re_split_sentences (text : str) : list str :=
  re_split_scan AfterOther [] text.

(** [np.linspace(1.0, 0.7, num)]: [i * step + 1.0] with
    [step = (0.7 - 1.0) / (num - 1)], the last entry set to [0.7]. *)
Definition float_of_nat (i : nat) : float :=
  PrimFloat.of_uint63 (Uint63.of_Z (Z.of_nat i)).

Definition position_weights (num : nat) : list float :=
  match num with
  | O => []
  | S O => [1.0]
  | S div =>
      let step := (0.7 - 1.0) / float_of_nat div in
      map (fun i => float_of_nat i * step + 1.0) (seq 0 div) ++ [0.7]
  end.

(** Elementwise product of two arrays of one length, which is what
    [sim_scores * position_weights] multiplies: one similarity and one
    weight per sentence. *)
Fixpoint array_mul (a b : list float) : list float :=
  match a, b with
  | x :: a', y :: b' => x * y :: array_mul a' b'
  | _, _ => []
  end.

(** What [np.argsort] promises about its result [order] on [scores]: it
    has one entry per score, the entries are positions of [scores], no
    position comes twice, and the scores read in that order ascend. *)
Definition score_at (scores : list float) (i : nat) : float :=
  nth i scores PrimFloat.nan.

Fixpoint no_repeat (order : list nat) : bool :=
  match order with
  | [] => true
  | i :: rest => negb (existsb (Nat.eqb i) rest) && no_repeat rest
  end.

Fixpoint ascending (scores : list float) (order : list nat) : bool :=
  match order with
  | [] => true
  | i :: rest =>
      forallb (fun j => score_at scores i <=? score_at scores j) rest
      && ascending scores rest
  end.

Definition is_argsort (scores : list float) (order : list nat) : bool :=
  (length order =? length scores)%nat
  && forallb (fun i => i <? length scores)%nat order
  && no_repeat order
  && ascending scores order.

(** A highlight that points into [sentences]: its index is a position of
    the list and its sentence is the one at that position. *)
Definition valid_highlight (sentences : list str) (h : highlight) : Prop :=
  (0 <= index h < len sentences)%Z /\
  nth_error sentences (Z.to_nat (index h)) = Some (sentence h).

Section Highlighter.

(** NLTK's part of [split_into_sentences] (locating or downloading
    [punkt], then [sent_tokenize(text)]): the sentences or an exception. *)
Variable sent_tokenize : str -> result (list str).

(** scikit-learn's part of [top_k_sentences]: fitting the
    [TfidfVectorizer] on [sentences + [summary_text]], transforming and
    [cosine_similarity(...).flatten()]: one similarity per sentence, or
    an exception. *)
Variable tfidf_cosine : list str -> str -> result (list float).

(** [np.argsort]: the indices that sort its argument in ascending order. *)
Variable argsort : list float -> list nat.

Definition split_into_sentences (text : str) : list str :=
  match sent_tokenize text with
  | Returned sentences => stripped_nonempty sentences
  | Raised _ => stripped_nonempty (re_split_sentences text)
  end.

(** [sim_scores * position_weights] *)
Definition combined_scores (sentences : list str) (sim_scores : list float)
  : list float :=
  array_mul sim_scores (position_weights (length sentences)).

(** The body of the [try] block. *)
Definition tfidf_highlights (sentences : list str) (summary_text : str)
    (k : Z) : result (list highlight) :=
  match tfidf_cosine sentences summary_text with
  | Raised e => Raised e
  | Returned sim_scores =>
      let combined := combined_scores sentences sim_scores in
      let k := Z.min k (len sentences) in
      let top_indices := rev (slice (argsort combined) (Some (- k)%Z) None) in
      comprehension
        (fun idx =>
           match getitem sentences idx with
           | Raised e => Raised e
           | Returned sent =>
               match getitem combined idx with
               | Raised e => Raised e
               | Returned sc =>
                   Returned (Build_highlight (Z.of_nat idx) sent sc)
               end
           end)
        top_indices
  end.

(** [[{"index": i, "sentence": sent, "score": 1.0}
     for i, sent in enumerate(sentences)]] *)
Definition all_highlights (sentences : list str) : list highlight :=
  map (fun '(i, sent) => Build_highlight (Z.of_nat i) sent 1.0)
      (combine (seq 0 (length sentences)) sentences).

(** The [except] branch:
    [[{"index": i, "sentence": sentences[i], "score": 0.5}
      for i in range(min(k, len(sentences)))]] *)
Definition fallback_highlights (sentences : list str) (k : Z)
  : result (list highlight) :=
  comprehension
    (fun i =>
       match getitem sentences i with
       | Raised e => Raised e
       | Returned sent => Returned (Build_highlight (Z.of_nat i) sent 0.5)
       end)
    (seq 0 (Z.to_nat (Z.min k (len sentences)))).

Definition top_k_sentences (original_text summary_text : str) (k : Z)
  : result (list highlight) :=
  let sentences := split_into_sentences original_text in
  if (len sentences =? 0)%Z then Returned []
  else if (len sentences <=? k)%Z then Returned (all_highlights sentences)
  else
    match tfidf_highlights sentences summary_text k with
    | Returned highlights => Returned highlights
    | Raised _ => fallback_highlights sentences k
    end.

End Highlighter.

End Highlight.

(** ** app.py: the helpers of the request handler *)

Module App.

Fixpoint str_eqb (a b : str) : bool :=
  match a, b with
  | [], [] => true
  | c :: a', d :: b' => N.eqb c d && str_eqb a' b'
  | _, _ => false
  end.

(** [c in s] for a one-character [c]. *)
Definition contains (c : char) (s : str) : bool := existsb (N.eqb c) s.

(** The two parts of [s] around the last [sep], if [sep] occurs. *)
Fixpoint rsplit_once (sep : char) (s : str) : option (str * str) :=
  match s with
  | [] => None
  | c :: s' =>
      match rsplit_once sep s' with
      | Some (a, b) => Some (c :: a, b)
      | None => if N.eqb c sep then Some ([], s') else None
      end
  end.

(** [s.rsplit(sep, 1)] for a one-character [sep]. *)
Definition rsplit1 (sep : char) (s : str) : list str :=
  match rsplit_once sep s with
  | Some (a, b) => [a; b]
  | None => [s]
  end.

(** The character ['.']. *)
Definition dot : char := 46%N.

Definition ALLOWED_EXTENSIONS : list str := [lit "pdf"; lit "txt"].

Section AllowedFile.

(** [str.lower]. *)
Variable lower : str -> str.

Definition allowed_file (filename : str) : result bool :=
  if contains dot filename then
    match Highlight.getitem (rsplit1 dot filename) 1 with
    | Raised e => Raised e
    | Returned ext =>
        Returned (existsb (str_eqb (lower ext)) ALLOWED_EXTENSIONS)
    end
  else Returned false.

End AllowedFile.

Record length_params : Type := Build_length_params
  { max_len : Z; min_len : Z }.

Definition length_configs : list (str * length_params) :=
  [ (lit "short", Build_length_params 80 30);
    (lit "medium", Build_length_params 180 60);
    (lit "long", Build_length_params 300 120) ].

(** [d[key]] as an option, for a dict written as its items. *)
Fixpoint dict_lookup {V : Type} (key : str) (d : list (str * V)) : option V :=
  match d with
  | [] => None
  | (k, v) :: rest => if str_eqb key k then Some v else dict_lookup key rest
  end.

(** [length_configs.get(length, length_configs['medium'])] *)
Definition get_length_params (length : str) : result length_params :=
  match dict_lookup (lit "medium") length_configs with
  | None => Raised "KeyError"%string
  | Some default =>
      match dict_lookup length length_configs with
      | Some params => Returned params
      | None => Returned default
      end
  end.

End App.

(** ** Notions used to state the properties *)

(** A string that is not empty and neither starts nor ends with
    whitespace. *)
Definition trimmed_nonempty (s : str) : Prop :=
  s <> [] /\ is_space (hd 0%N s) = false /\ is_space (last s 0%N) = false.

(** A string of whitespace only (the empty string included). *)
Definition blank (s : str) : Prop := Forall (fun c => is_space c = true) s.

(** The characters of a string that are not whitespace, in order. *)
Definition visible (s : str) : str := filter (fun c => negb (is_space c)) s.

(** The characters the chunker cuts after: newline, full stop, space. *)
Definition is_boundary (c : char) : Prop :=
  c = 10%N \/ c = 46%N \/ c = 32%N.

(** A page whose [extract_text()] returns. *)
Definition never_raises (p : Extract.page) : Prop :=
  match p with Extract.PageRaises _ => False | _ => True end.

(** ** Concrete capabilities, used to run the functions on examples *)

Module Reference.

(** A summarisation capability that raises on every call. *)
Definition failing_summarizer (_ : str) (_ _ : Z) : result str :=
  Raised "model failure"%string.

(** A long text (2000 characters) without any boundary. *)
Definition long_text : str := repeat 97%N 2000.

(** No tokenizer data: [split_into_sentences] takes its regex fallback. *)
Definition no_tokenizer (_ : str) : result (list str) :=
  Raised "LookupError"%string.

(** A vectorizer that raises, as on an empty vocabulary. *)
Definition failing_tfidf (_ : list str) (_ : str) : result (list float) :=
  Raised "ValueError: empty vocabulary"%string.

(** A stand-in for the similarity: the share of the code points of the
    sentence that occur in the summary. *)
Definition overlap_similarity (sentences : list str) (summary_text : str)
  : result (list float) :=
  Returned
    (map (fun sent =>
            (Highlight.float_of_nat
               (length (filter (fun c => existsb (N.eqb c) summary_text) sent))
             / Highlight.float_of_nat (length sent))%float)
         sentences).

(** An argsort by insertion, ties in order of position. *)
Fixpoint insert_index (scores : list float) (i : nat) (order : list nat)
  : list nat :=
  match order with
  | [] => [i]
  | j :: rest =>
      if (Highlight.score_at scores i <? Highlight.score_at scores j)%float
      then i :: order
      else j :: insert_index scores i rest
  end.

(** A text of six sentences and a summary of it. *)
Definition sample_text : str :=
  lit "The cat sat. Dogs bark loudly!  Is it so? Yes it is.   Birds fly high. End".

Definition sample_summary : str := lit "cat bird".

Definition insertion_argsort (scores : list float) : list nat :=
  fold_left (fun order i => insert_index scores i order)
            (seq 0 (length scores)) [].

(** A text of two lines. *)
Definition two_lines : str :=
  lit "ab cd" ++ Summarize.newline ++ lit "ef gh ij kl mn op".

(** A long text (2000 characters) of spaces only. *)
Definition blank_text : str := repeat 32%N 2000.

(** Lower-casing of the ASCII letters, as [str.lower] does on ASCII text. *)
Definition ascii_lower (s : str) : str :=
  map (fun c => if ((65 <=? c) && (c <=? 90))%N then (c + 32)%N else c) s.

End Reference.

(** * Properties *)

(** ** Python primitives *)

Section PyFacts.

Lemma rfind_scan_range (text sub : str) (lo : Z) (cands : nat) :
  0 <= lo ->
  rfind_scan text sub lo cands = -1 \/
  lo <= rfind_scan text sub lo cands < lo + Z.of_nat cands.
Proof.
  intros Hlo. induction cands as [|c IH]; simpl.
  - now left.
  - destruct (starts_with sub (skipn (Z.to_nat (lo + Z.of_nat c)) text)).
    + right. lia.
    + destruct IH as [IH|IH]; [now left | right; lia].
Qed.

(** With in-range bounds a hit of [rfind] lies inside [start, end). *)
Lemma rfind_range (text sub : str) (start end_ : Z) :
  0 <= start -> 0 <= end_ <= len text -> 1 <= len sub ->
  rfind text sub start end_ = -1 \/
  start <= rfind text sub start end_ < end_.
Proof.
  intros Hs He Hsub. unfold rfind.
  replace (len text <? end_) with false by (symmetry; apply Z.ltb_ge; lia).
  replace (end_ <? 0) with false by (symmetry; apply Z.ltb_ge; lia).
  replace (start <? 0) with false by (symmetry; apply Z.ltb_ge; lia).
  destruct (end_ - start <? len sub) eqn:E; [now left|].
  apply Z.ltb_ge in E.
  destruct (rfind_scan_range text sub start
              (Z.to_nat (end_ - start - len sub + 1)) Hs) as [H|H];
    [now left | right; lia].
Qed.

(** An empty window holds no occurrence of a non-empty pattern. *)
Lemma rfind_empty_window (text sub : str) (start : Z) :
  0 <= start <= len text -> 1 <= len sub ->
  rfind text sub start start = -1.
Proof.
  intros Hs Hsub. unfold rfind.
  replace (len text <? start) with false by (symmetry; apply Z.ltb_ge; lia).
  replace (start <? 0) with false by (symmetry; apply Z.ltb_ge; lia).
  replace (start - start <? len sub) with true
    by (symmetry; apply Z.ltb_lt; lia).
  reflexivity.
Qed.

Lemma slice_empty_window {A : Type} (l : list A) (i : Z) :
  slice l (Some i) (Some i) = [].
Proof. unfold slice. now rewrite Z.sub_diag. Qed.

End PyFacts.

(** ** The chunker *)

Section ChunkerFacts.

Import Summarize.

Variable text : str.
Variable approx_chars : Z.

Lemma next_start_succ (end_ : Z) : next_start end_ = end_ + 1.
Proof. unfold next_start. now rewrite Z.eqb_refl. Qed.

(** With a positive budget the [end] of an iteration lies strictly after
    its [start] and within the text. *)
Lemma chunk_end_bounds (start : Z) :
  0 < approx_chars -> 0 <= start < len text ->
  start < chunk_end text approx_chars start <= len text.
Proof.
  intros HB Hs. unfold chunk_end.
  set (e := Z.min (len text) (start + approx_chars)).
  assert (He : start < e <= len text) by (unfold e; lia).
  destruct (e <? len text) eqn:Elt; [|lia].
  pose proof (rfind_range text newline start e) as H1.
  pose proof (rfind_range text (lit ". ") start e) as H2.
  pose proof (rfind_range text (lit " ") start e) as H3.
  assert (L1 : 1 <= len newline) by (vm_compute; discriminate).
  assert (L2 : 1 <= len (lit ". ")) by (vm_compute; discriminate).
  assert (L3 : 1 <= len (lit " ")) by (vm_compute; discriminate).
  cbv zeta.
  repeat match goal with
         | |- context [?x =? -1] => destruct (Z.eqb_spec x (-1))
         end; lia.
Qed.

(** With a zero budget the window of every iteration is empty. *)
Lemma chunk_end_zero_budget (start : Z) :
  0 <= start < len text -> chunk_end text 0 start = start.
Proof.
  intros Hs. unfold chunk_end. rewrite Z.add_0_r.
  replace (Z.min (len text) start) with start by lia.
  replace (start <? len text) with true by (symmetry; apply Z.ltb_lt; lia).
  rewrite !rfind_empty_window by (try lia; vm_compute; discriminate).
  reflexivity.
Qed.

(** More fuel does not change a finished run. *)
Lemma chunk_loop_more_fuel (fuel fuel' : nat) (chunks out : list str)
    (start : Z) :
  chunk_loop text approx_chars fuel chunks start = Some out ->
  (fuel <= fuel')%nat ->
  chunk_loop text approx_chars fuel' chunks start = Some out.
Proof.
  revert fuel' chunks start.
  induction fuel as [|fuel IH]; intros fuel' chunks start H Hle;
    [discriminate|].
  destruct fuel' as [|fuel']; [lia|].
  simpl in *. destruct (start <? len text); [|exact H].
  destruct (chunk_iteration text approx_chars chunks start) as [c s].
  apply IH; [exact H | lia].
Qed.

(** The loop finishes once the fuel exceeds the distance to the end. *)
Lemma chunk_loop_finishes (fuel : nat) (chunks : list str) (start : Z) :
  0 < approx_chars -> 0 <= start ->
  (Z.to_nat (len text - start) < fuel)%nat ->
  exists out, chunk_loop text approx_chars fuel chunks start = Some out.
Proof.
  intros HB. revert chunks start.
  induction fuel as [|fuel IH]; intros chunks start Hs Hf; [lia|].
  simpl. destruct (start <? len text) eqn:E; [|now eexists].
  apply Z.ltb_lt in E.
  pose proof (chunk_end_bounds start HB (conj Hs E)) as Hb.
  unfold chunk_iteration. rewrite next_start_succ.
  apply IH; lia.
Qed.

(** The chunks are the trimmed, non-empty slices of the same run. *)
Lemma chunk_loop_slices (fuel : nat) (chunks : list str) (start : Z) :
  chunk_loop text approx_chars fuel chunks start =
  option_map (fun slices => chunks ++ filter truthy (map strip slices))
             (slice_loop text approx_chars fuel start).
Proof.
  revert chunks start.
  induction fuel as [|fuel IH]; intros chunks start; [reflexivity|].
  simpl. destruct (start <? len text); [|simpl; now rewrite app_nil_r].
  unfold chunk_iteration. rewrite IH. unfold raw_slice.
  destruct (slice_loop text approx_chars fuel
              (next_start (chunk_end text approx_chars start))); simpl;
    [|reflexivity].
  destruct (truthy (strip (slice text (Some start)
              (Some (chunk_end text approx_chars start))))); simpl;
    [now rewrite <- app_assoc | reflexivity].
Qed.

End ChunkerFacts.

Section ChunkerClaims.

Import Summarize.

(** C8: for every text and every budget B > 0, [chunk_text_by_tokens]
    terminates: the scan position strictly increases on every loop
    iteration, and the run returns a finite list of chunks (any fuel above
    the length of the text finishes the loop, all with the same list). *)
Theorem chunk_text_by_tokens_terminates (text : str) (approx_chars : Z) :
  0 < approx_chars ->
  (forall chunks start, 0 <= start < len text ->
     start < snd (chunk_iteration text approx_chars chunks start)) /\
  (exists chunks, forall fuel, (length text < fuel)%nat ->
     chunk_text_by_tokens text approx_chars fuel = Some chunks).
Proof.
  intros HB. split.
  - intros chunks start Hs. unfold chunk_iteration. simpl.
    rewrite next_start_succ.
    pose proof (chunk_end_bounds text approx_chars start HB Hs). lia.
  - destruct (chunk_loop_finishes text approx_chars (S (length text)) [] 0 HB)
      as [out Hout]; [lia | unfold len; lia |].
    exists out. intros fuel Hf. unfold chunk_text_by_tokens.
    apply (chunk_loop_more_fuel text approx_chars (S (length text)));
      [exact Hout | lia].
Qed.

Lemma chunk_text_by_tokens_terminates_witness :
  0 < 10 /\
  (forall chunks start, 0 <= start < 33 ->
     start < snd (chunk_iteration (lit "hello world. this is a test of it")
                    10 chunks start)) /\
  (exists chunks, forall fuel, (33 < fuel)%nat ->
     chunk_text_by_tokens (lit "hello world. this is a test of it") 10 fuel
     = Some chunks).
Proof.
  split; [lia|].
  apply (chunk_text_by_tokens_terminates
           (lit "hello world. this is a test of it") 10).
  lia.
Defined.

(** C1 (evaluation of the code): on ["abcdefghij"] with budget 3 the
    untrimmed slices of the run are ["abc"], ["efg"], ["ij"]; the
    characters at positions 3 and 7 are in no slice, so the slices put
    together are ["abcefgij"] and not the text.  The chunks are these
    same slices. *)
Theorem chunk_slices_skip_a_character :
  chunk_slices (lit "abcdefghij") 3 11
    = Some [lit "abc"; lit "efg"; lit "ij"] /\
  chunk_text_by_tokens (lit "abcdefghij") 3 11
    = Some [lit "abc"; lit "efg"; lit "ij"] /\
  concat [lit "abc"; lit "efg"; lit "ij"] = lit "abcefgij" /\
  concat [lit "abc"; lit "efg"; lit "ij"] <> lit "abcdefghij".
Proof. repeat split; try (vm_compute; reflexivity). vm_compute. discriminate. Qed.

(** C2 (evaluation of the code): on ten copies of ["a"] with budget 3
    the run returns three chunks, of sizes 3, 3 and 2: after each cut the
    next character is stepped over, so the chunks start at 0, 4 and 8. *)
Theorem chunk_ten_a_budget_three :
  chunk_text_by_tokens (repeat 97%N 10) 3 11
    = Some [lit "aaa"; lit "aaa"; lit "aa"] /\
  option_map (map (@length char)) (chunk_text_by_tokens (repeat 97%N 10) 3 11)
    = Some [3; 3; 2]%nat /\
  option_map (map (@length char)) (chunk_text_by_tokens (repeat 97%N 10) 3 11)
    <> Some [3; 3; 3; 1]%nat.
Proof. repeat split; try (vm_compute; reflexivity). vm_compute. discriminate. Qed.

End ChunkerClaims.

(** ** The orchestrator *)

Section OrchestratorFacts.

Import Summarize.

(** With a zero budget every iteration takes an empty slice and moves one
    position on, so the loop ends with the chunks it started from. *)
Lemma chunk_loop_zero_budget (text : str) (fuel : nat) (chunks : list str)
    (start : Z) :
  0 <= start -> (Z.to_nat (len text - start) < fuel)%nat ->
  chunk_loop text 0 fuel chunks start = Some chunks.
Proof.
  revert chunks start.
  induction fuel as [|fuel IH]; intros chunks start Hs Hf; [lia|].
  simpl. destruct (start <? len text) eqn:E; [|reflexivity].
  apply Z.ltb_lt in E. unfold chunk_iteration.
  rewrite chunk_end_zero_budget by lia.
  rewrite slice_empty_window, next_start_succ. simpl.
  apply IH; lia.
Qed.

(** With budget -1 on [long_text] the window of the first iteration ends
    before it starts: the iteration appends a chunk and leaves [start] at 0,
    so the loop never ends. *)
Lemma chunk_loop_negative_budget_stuck (fuel : nat) (chunks : list str) :
  chunk_loop Reference.long_text (-1) fuel chunks 0 = None.
Proof.
  revert chunks. induction fuel as [|fuel IH]; intros chunks; [reflexivity|].
  change (chunk_loop Reference.long_text (-1) (S fuel) chunks 0)
    with (if 0 <? len Reference.long_text
          then let '(chunks', start') :=
                 chunk_iteration Reference.long_text (-1) chunks 0 in
               chunk_loop Reference.long_text (-1) fuel chunks' start'
          else Some chunks).
  replace (0 <? len Reference.long_text) with true by (vm_compute; reflexivity).
  unfold chunk_iteration.
  replace (chunk_end Reference.long_text (-1) 0) with (-1)
    by (vm_compute; reflexivity).
  rewrite next_start_succ. apply IH.
Qed.

Lemma generate_summary_negative_budget_stuck
    (summarizer : str -> Z -> Z -> result str) (fuel : nat) (mx mn : Z) :
  generate_summary summarizer fuel Reference.long_text (-1) mx mn = None.
Proof.
  unfold generate_summary.
  replace (len Reference.long_text <? 150) with false
    by (vm_compute; reflexivity).
  replace (len Reference.long_text <? 2000) with false
    by (vm_compute; reflexivity).
  unfold chunk_text_by_tokens.
  now rewrite chunk_loop_negative_budget_stuck.
Qed.

End OrchestratorFacts.

Section OrchestratorClaims.

Import Summarize.

Variable summarizer : str -> Z -> Z -> result str.

(** C3: for every text with 150 <= length < 2000, if the summarization
    capability raises on every invocation, [generate_summary] does not raise
    and returns [text[:summary_max_length]]. *)
Theorem generate_summary_medium_fallback (fuel : nat) (text : str)
    (max_chunk_chars summary_max_length summary_min_length : Z) :
  (forall t mx mn, exists e, summarizer t mx mn = Raised e) ->
  150 <= len text < 2000 ->
  generate_summary summarizer fuel text max_chunk_chars
    summary_max_length summary_min_length
  = Some (Returned (slice text None (Some summary_max_length))).
Proof.
  intros Hfail [Hlo Hhi]. unfold generate_summary.
  replace (len text <? 150) with false by (symmetry; apply Z.ltb_ge; lia).
  replace (len text <? 2000) with true by (symmetry; apply Z.ltb_lt; lia).
  destruct (Hfail text summary_max_length summary_min_length) as [e He].
  now rewrite He.
Qed.

(** C7 (amended): on a long text (length >= 2000) with chunk budget 0,
    [generate_summary] does not fail: the run ends (any fuel above the
    length of the text is enough), every slice is empty, chunking yields no
    chunk, the summarizer is not called and the fixed string
    ["No content to summarize."] is returned.  Negative budgets are left
    out. *)
Theorem generate_summary_zero_budget_sentinel (text : str)
    (summary_max_length summary_min_length : Z) (fuel : nat) :
  2000 <= len text -> (length text < fuel)%nat ->
  generate_summary summarizer fuel text 0
    summary_max_length summary_min_length = Some (Returned no_content).
Proof.
  intros Hlong Hf. unfold generate_summary.
  replace (len text <? 150) with false by (symmetry; apply Z.ltb_ge; lia).
  replace (len text <? 2000) with false by (symmetry; apply Z.ltb_ge; lia).
  unfold chunk_text_by_tokens.
  rewrite chunk_loop_zero_budget by (unfold len; lia).
  reflexivity.
Qed.

End OrchestratorClaims.

Section OrchestratorExamples.

Import Summarize Reference.

Lemma generate_summary_medium_fallback_witness :
  generate_summary failing_summarizer 0 (repeat 97%N 1500) 800 150 40
  = Some (Returned (repeat 97%N 150)).
Proof.
  rewrite (generate_summary_medium_fallback failing_summarizer 0
             (repeat 97%N 1500) 800 150 40).
  - vm_compute. reflexivity.
  - intros t mx mn. exists "model failure"%string. reflexivity.
  - vm_compute. split; [discriminate | reflexivity].
Defined.

(** C7 (counterexample): [long_text] with budget 0 do not make
    [generate_summary] fail: it returns ["No content to summarize."]. *)
Lemma generate_summary_zero_budget_returns :
  generate_summary failing_summarizer 2001 long_text 0 150 40
    = Some (Returned no_content) /\
  ~ (exists e,
       generate_summary failing_summarizer 2001 long_text 0 150 40
       = Some (Raised e)).
Proof.
  assert (H : generate_summary failing_summarizer 2001 long_text
                0 150 40 = Some (Returned no_content))
    by (vm_compute; reflexivity).
  split; [exact H|]. intros [e He]. rewrite H in He. discriminate.
Qed.

Lemma generate_summary_zero_budget_sentinel_witness :
  generate_summary failing_summarizer 2001 long_text 0 150 40
  = Some (Returned no_content).
Proof.
  apply (generate_summary_zero_budget_sentinel failing_summarizer
           long_text 150 40 2001).
  - vm_compute. discriminate.
  - unfold long_text. rewrite repeat_length. lia.
Defined.

End OrchestratorExamples.

(** ** The PDF extractor *)

Section ExtractFacts.

Import Extract.

Lemma pages_loop_appends (text : str) (pages : list (option str)) :
  pages_loop text (map page_of pages)
  = Returned (text ++ newline_terminated pages).
Proof.
  revert text. unfold newline_terminated.
  induction pages as [|[page_text|] rest IH]; intros text; simpl.
  - now rewrite app_nil_r.
  - destruct (truthy page_text); simpl; [|apply IH].
    rewrite IH. now rewrite <- !app_assoc.
  - apply IH.
Qed.

Lemma join_terminated (sep : str) (parts : list str) :
  concat (map (fun p => p ++ sep) parts)
  = join sep parts ++ (if truthy parts then sep else []).
Proof.
  induction parts as [|p [|q rest] IH].
  - reflexivity.
  - simpl. now rewrite app_nil_r.
  - change (concat (map (fun p => p ++ sep) (p :: q :: rest)))
      with ((p ++ sep) ++ concat (map (fun p => p ++ sep) (q :: rest))).
    rewrite IH.
    change (join sep (p :: q :: rest)) with (p ++ sep ++ join sep (q :: rest)).
    simpl truthy. now rewrite <- !app_assoc.
Qed.

(** C9 (amended): for every sequence of pages, each yielding some text or
    none, [extract_text_from_pdf_fileobj] returns the texts of the pages
    that yield text, in page order, each followed by a newline: the
    newline-separated texts and one more newline after the last of them;
    pages without text contribute nothing. *)
Theorem extract_pdf_newline_after_each_page (pages : list (option str)) :
  extract_text_from_pdf_fileobj (Returned (map page_of pages))
    = Returned (newline_terminated pages) /\
  newline_terminated pages
    = newline_separated pages
      ++ (if truthy (yielded pages) then Summarize.newline else []).
Proof.
  split.
  - unfold extract_text_from_pdf_fileobj. now rewrite pages_loop_appends.
  - apply join_terminated.
Qed.

(** C9 (counterexample): a document of one page with the text ["A"] gives
    ["A"] and a newline, which is not the newline-separated page texts
    (["A"] alone). *)
Lemma extract_pdf_single_page_ends_in_newline :
  extract_text_from_pdf_fileobj (Returned (map page_of [Some (lit "A")]))
    = Returned (lit "A" ++ Summarize.newline) /\
  extract_text_from_pdf_fileobj (Returned (map page_of [Some (lit "A")]))
    <> Returned (newline_separated [Some (lit "A")]).
Proof. split; [reflexivity | vm_compute; discriminate]. Qed.

End ExtractFacts.

(** ** Lists *)

Section ListFacts.

Context {A B : Type}.

(** [l[i:]] drops the entries before the adjusted bound. *)
Lemma slice_from (l : list A) (i : Z) :
  slice l (Some i) None = skipn (Z.to_nat (adjust_index (len l) i)) l.
Proof.
  unfold slice. apply firstn_all2. rewrite length_skipn.
  assert (0 <= adjust_index (len l) i <= len l)
    by (unfold adjust_index, len; destruct (Z.ltb_spec i 0); lia).
  unfold len in *. lia.
Qed.

Lemma nth_seq_firstn (l : list A) (d : A) (m : nat) :
  (m <= length l)%nat ->
  map (fun i => nth i l d) (seq 0 m) = firstn m l.
Proof.
  revert m. induction l as [|a l IH]; intros m Hm.
  - simpl in Hm. assert (m = 0%nat) by lia. now subst.
  - destruct m as [|m]; [reflexivity|].
    simpl. f_equal. rewrite <- seq_shift, map_map. apply IH. simpl in Hm. lia.
Qed.

Lemma StronglySorted_snoc (R : A -> A -> Prop) (l : list A) (a : A) :
  StronglySorted R l -> Forall (fun x => R x a) l ->
  StronglySorted R (l ++ [a]).
Proof.
  induction 1 as [|b l Hs IH Hb]; intros Ha; simpl.
  - constructor; constructor.
  - inversion Ha; subst. constructor; [now apply IH|].
    apply Forall_app. split; [exact Hb | now constructor].
Qed.

Lemma StronglySorted_rev (R : A -> A -> Prop) (l : list A) :
  StronglySorted R l -> StronglySorted (fun x y => R y x) (rev l).
Proof.
  induction 1 as [|a l Hs IH Ha]; simpl; [constructor|].
  apply StronglySorted_snoc; [exact IH|].
  now apply Forall_rev.
Qed.

Lemma StronglySorted_skipn (R : A -> A -> Prop) (n : nat) (l : list A) :
  StronglySorted R l -> StronglySorted R (skipn n l).
Proof.
  revert l. induction n as [|n IH]; intros l H; [exact H|].
  destruct l as [|a l]; [exact H|]. simpl. apply IH.
  now apply StronglySorted_inv in H.
Qed.

Lemma StronglySorted_map (R : B -> B -> Prop) (f : A -> B) (l : list A) :
  StronglySorted (fun x y => R (f x) (f y)) l -> StronglySorted R (map f l).
Proof.
  induction 1 as [|a l Hs IH Ha]; simpl; constructor; [exact IH|].
  now apply Forall_map.
Qed.

Lemma nth_error_lt (l : list A) (i : nat) (a : A) :
  nth_error l i = Some a -> (i < length l)%nat.
Proof. intros H. apply nth_error_Some. congruence. Qed.

Lemma Forall_skipn (P : A -> Prop) (n : nat) (l : list A) :
  Forall P l -> Forall P (skipn n l).
Proof.
  intros H. rewrite <- (firstn_skipn n l) in H.
  now apply Forall_app in H.
Qed.

Lemma NoDup_skipn (n : nat) (l : list A) : NoDup l -> NoDup (skipn n l).
Proof.
  revert l. induction n as [|n IH]; intros l H; [exact H|].
  destruct l as [|a l]; [exact H|]. simpl. apply IH. now inversion H.
Qed.

End ListFacts.

(** ** The highlighter *)

Section HighlightFacts.

Import Highlight.
Local Open Scope float_scope.

Lemma getitem_nth {A : Type} (l : list A) (i : nat) (d : A) :
  (i < length l)%nat -> getitem l i = Returned (nth i l d).
Proof.
  intros H. unfold getitem.
  destruct (nth_error l i) as [a|] eqn:E.
  - now rewrite (nth_error_nth l i d E).
  - apply nth_error_None in E. lia.
Qed.

Lemma getitem_Returned {A : Type} (l : list A) (i : nat) (a : A) :
  getitem l i = Returned a -> nth_error l i = Some a.
Proof. unfold getitem. destruct (nth_error l i); intros H; now inversion H. Qed.

Lemma comprehension_map {A B : Type} (f : A -> result B) (g : A -> B)
    (l : list A) :
  Forall (fun a => f a = Returned (g a)) l ->
  comprehension f l = Returned (map g l).
Proof.
  induction 1 as [|a l Ha Hl IH]; simpl; [reflexivity|].
  now rewrite Ha, IH.
Qed.

Lemma comprehension_Forall2 {A B : Type} (f : A -> result B) (l : list A)
    (bs : list B) :
  comprehension f l = Returned bs ->
  Forall2 (fun a b => f a = Returned b) l bs.
Proof.
  revert bs. induction l as [|a l IH]; intros bs H; simpl in H.
  - inversion H. constructor.
  - destruct (f a) as [b|] eqn:Ea; [|discriminate].
    destruct (comprehension f l) as [bs'|]; [|discriminate].
    inversion H; subst. constructor; [exact Ea | now apply IH].
Qed.

Lemma length_position_weights (num : nat) :
  length (position_weights num) = num.
Proof.
  destruct num as [|[|div]]; try reflexivity.
  unfold position_weights.
  rewrite length_app, length_map, length_seq. simpl. lia.
Qed.

Lemma length_array_mul (a b : list float) :
  length (array_mul a b) = Nat.min (length a) (length b).
Proof.
  revert b. induction a as [|x a IH]; intros [|y b]; simpl; auto.
Qed.

Lemma length_combined_scores (sentences : list str) (sim : list float) :
  length sim = length sentences ->
  length (combined_scores sentences sim) = length sentences.
Proof.
  intros H. unfold combined_scores.
  rewrite length_array_mul, length_position_weights. lia.
Qed.

Lemma no_repeat_NoDup (order : list nat) :
  no_repeat order = true -> NoDup order.
Proof.
  induction order as [|i rest IH]; simpl; intros H; [constructor|].
  apply andb_prop in H. destruct H as [Hi Hr].
  constructor; [|now apply IH].
  intros Hin. apply negb_true_iff in Hi.
  assert (existsb (Nat.eqb i) rest = true); [|congruence].
  apply existsb_exists. exists i. split; [exact Hin | apply Nat.eqb_refl].
Qed.

Lemma ascending_StronglySorted (scores : list float) (order : list nat) :
  ascending scores order = true ->
  StronglySorted
    (fun i j => (score_at scores i <=? score_at scores j) = true) order.
Proof.
  induction order as [|i rest IH]; simpl; intros H; [constructor|].
  apply andb_prop in H. destruct H as [Hi Hr].
  constructor; [now apply IH|].
  apply Forall_forall. intros j Hj.
  rewrite forallb_forall in Hi. now apply Hi.
Qed.

Lemma is_argsort_facts (scores : list float) (order : list nat) :
  is_argsort scores order = true ->
  length order = length scores /\
  Forall (fun i => (i < length scores)%nat) order /\
  NoDup order /\
  StronglySorted
    (fun i j => (score_at scores i <=? score_at scores j) = true) order.
Proof.
  unfold is_argsort. intros H.
  apply andb_prop in H. destruct H as [H Hasc].
  apply andb_prop in H. destruct H as [H Hnd].
  apply andb_prop in H. destruct H as [Hlen Hrange].
  repeat split.
  - now apply Nat.eqb_eq.
  - apply Forall_forall. intros i Hi. rewrite forallb_forall in Hrange.
    now apply Nat.ltb_lt, Hrange.
  - now apply no_repeat_NoDup.
  - now apply ascending_StronglySorted.
Qed.

End HighlightFacts.

Section HighlighterClaims.

Import Highlight.
Local Open Scope float_scope.

Variable sent_tokenize : str -> result (list str).
Variable tfidf_cosine : list str -> str -> result (list float).
Variable argsort : list float -> list nat.


Lemma all_highlights_fields (sentences : list str) :
  map sentence (all_highlights sentences) = sentences /\
  map index (all_highlights sentences)
    = map Z.of_nat (seq 0 (length sentences)) /\
  Forall (fun h => score h = 1.0) (all_highlights sentences).
Proof.
  unfold all_highlights. generalize 0%nat as off.
  induction sentences as [|s rest IH]; intros off; simpl.
  - repeat split; constructor.
  - destruct (IH (S off)) as (Hs & Hi & Hsc).
    repeat split; [now rewrite Hs | now rewrite Hi | now constructor].
Qed.

Lemma fallback_highlights_fields (sentences : list str) (k : Z) :
  exists hs,
    fallback_highlights sentences k = Returned hs /\
    map sentence hs
      = firstn (Z.to_nat (Z.min k (len sentences))) sentences /\
    map index hs
      = map Z.of_nat (seq 0 (Z.to_nat (Z.min k (len sentences)))) /\
    Forall (fun h => score h = 0.5) hs.
Proof.
  set (m := Z.to_nat (Z.min k (len sentences))).
  assert (Hm : (m <= length sentences)%nat) by (unfold m, len; lia).
  exists (map (fun i => Build_highlight (Z.of_nat i) (nth i sentences []) 0.5)
              (seq 0 m)).
  repeat split.
  - unfold fallback_highlights. fold m. apply comprehension_map.
    apply Forall_forall. intros i Hi. apply in_seq in Hi.
    now rewrite (getitem_nth sentences i []) by lia.
  - rewrite map_map. simpl. now apply nth_seq_firstn.
  - now rewrite map_map.
  - apply Forall_map, Forall_forall. reflexivity.
Qed.

(** C6: if the number of sentences obtained from the original text is at
    most [k], [top_k_sentences] returns every sentence as a highlight, in
    original order, each with score exactly 1.0 and with its 0-based
    position as index. *)
Theorem top_k_few_sentences (original_text summary_text : str) (k : Z) :
  (len (split_into_sentences sent_tokenize original_text) <= k)%Z ->
  exists hs,
    top_k_sentences sent_tokenize tfidf_cosine argsort
      original_text summary_text k = Returned hs /\
    map sentence hs = split_into_sentences sent_tokenize original_text /\
    map index hs
      = map Z.of_nat (seq 0 (length (split_into_sentences sent_tokenize original_text))) /\
    Forall (fun h => score h = 1.0) hs.
Proof.
  intros Hk. unfold top_k_sentences.
  set (sentences := split_into_sentences sent_tokenize original_text) in *.
  destruct (len sentences =? 0)%Z eqn:E0.
  - exists []. apply Z.eqb_eq in E0.
    assert (sentences = []) as ->
      by (destruct sentences; [reflexivity | unfold len in E0; simpl in E0; lia]).
    repeat split; constructor.
  - replace (len sentences <=? k)%Z with true
      by (symmetry; now apply Z.leb_le).
    exists (all_highlights sentences).
    split; [reflexivity | apply all_highlights_fields].
Qed.

(** C5: if the TF-IDF step of [top_k_sentences] is reached (there are
    more sentences than [k]) and raises, [top_k_sentences] does not raise
    and returns exactly the first min(k, sentence_count) sentences in
    original order, each with score 0.5. *)
Theorem top_k_fallback (original_text summary_text : str) (k : Z) (e : exn) :
  (k < len (split_into_sentences sent_tokenize original_text))%Z ->
  tfidf_highlights tfidf_cosine argsort (split_into_sentences sent_tokenize original_text)
    summary_text k = Raised e ->
  exists hs,
    top_k_sentences sent_tokenize tfidf_cosine argsort
      original_text summary_text k = Returned hs /\
    map sentence hs
      = firstn (Z.to_nat (Z.min k (len (split_into_sentences sent_tokenize original_text))))
          (split_into_sentences sent_tokenize original_text) /\
    map index hs
      = map Z.of_nat
          (seq 0 (Z.to_nat (Z.min k (len (split_into_sentences sent_tokenize original_text))))) /\
    Forall (fun h => score h = 0.5) hs.
Proof.
  intros Hk Hraise. unfold top_k_sentences.
  set (sentences := split_into_sentences sent_tokenize original_text) in *.
  destruct (len sentences =? 0)%Z eqn:E0.
  - exists []. apply Z.eqb_eq in E0.
    replace (Z.to_nat (Z.min k (len sentences))) with 0%nat by lia.
    repeat split; constructor.
  - replace (len sentences <=? k)%Z with false
      by (symmetry; apply Z.leb_gt; lia).
    rewrite Hraise. apply fallback_highlights_fields.
Qed.

(** The highlights of a successful [try] body, read off its comprehension. *)
Lemma tfidf_highlights_Returned (sentences : list str) (summary_text : str)
    (k : Z) (hs : list highlight) :
  tfidf_highlights tfidf_cosine argsort sentences summary_text k
    = Returned hs ->
  exists sim,
    tfidf_cosine sentences summary_text = Returned sim /\
    Forall2
      (fun idx h =>
         index h = Z.of_nat idx /\
         nth_error sentences idx = Some (sentence h) /\
         nth_error (combined_scores sentences sim) idx = Some (score h))
      (rev (slice (argsort (combined_scores sentences sim))
                  (Some (- Z.min k (len sentences))%Z) None))
      hs.
Proof.
  unfold tfidf_highlights. intros H.
  destruct (tfidf_cosine sentences summary_text) as [sim|]; [|discriminate].
  exists sim. split; [reflexivity|].
  apply comprehension_Forall2 in H.
  eapply Forall2_impl; [|exact H].
  intros idx h Hh. cbv beta in Hh.
  destruct (getitem sentences idx) as [sent|] eqn:Es; [|discriminate].
  destruct (getitem (combined_scores sentences sim) idx) as [sc|] eqn:Ec;
    [|discriminate].
  inversion Hh; subst. simpl.
  repeat split; [now apply getitem_Returned | now apply getitem_Returned].
Qed.

(** C4: for k >= 1, when the TF-IDF path of [top_k_sentences] is taken
    and succeeds (the vectorizer returns one similarity per sentence and
    [argsort] returns the indices that sort the combined scores), the
    returned highlights are in non-increasing order of score and their
    number is min(k, sentence_count). *)
Theorem top_k_tfidf_sorted (original_text summary_text : str) (k : Z)
    (sim : list float) :
  (1 <= k)%Z ->
  (k < len (split_into_sentences sent_tokenize original_text))%Z ->
  tfidf_cosine (split_into_sentences sent_tokenize original_text) summary_text = Returned sim ->
  length sim = length (split_into_sentences sent_tokenize original_text) ->
  is_argsort (combined_scores (split_into_sentences sent_tokenize original_text) sim)
    (argsort (combined_scores (split_into_sentences sent_tokenize original_text) sim)) = true ->
  exists hs,
    top_k_sentences sent_tokenize tfidf_cosine argsort
      original_text summary_text k = Returned hs /\
    len hs = Z.min k (len (split_into_sentences sent_tokenize original_text)) /\
    StronglySorted (fun h1 h2 => (score h2 <=? score h1) = true) hs.
Proof.
  intros Hk1 Hkn Hsim Hlen Hsort. unfold top_k_sentences.
  set (sentences := split_into_sentences sent_tokenize original_text) in *.
  replace (len sentences =? 0)%Z with false by (symmetry; apply Z.eqb_neq; lia).
  replace (len sentences <=? k)%Z with false by (symmetry; apply Z.leb_gt; lia).
  unfold tfidf_highlights. rewrite Hsim.
  set (combined := combined_scores sentences sim) in *.
  assert (Hc : length combined = length sentences)
    by now apply length_combined_scores.
  destruct (is_argsort_facts _ _ Hsort) as (Hlo & Hrange & _ & Hasc).
  rewrite slice_from.
  replace (Z.to_nat (adjust_index (len (argsort combined))
                       (- Z.min k (len sentences))))
    with (length sentences - Z.to_nat k)%nat
    by (unfold adjust_index, len in *; rewrite Hlo, Hc;
        destruct (Z.ltb_spec (- Z.min k (Z.of_nat (length sentences))) 0); lia).
  set (top := rev (skipn (length sentences - Z.to_nat k) (argsort combined))).
  pose (g := fun idx => Build_highlight (Z.of_nat idx) (nth idx sentences [])
                          (score_at combined idx)).
  exists (map g top).
  assert (Htop : Forall (fun i => (i < length sentences)%nat) top).
  { unfold top. apply Forall_rev, Forall_skipn. now rewrite Hc in Hrange. }
  split; [|split].
  - rewrite (comprehension_map _ g); [reflexivity|].
    eapply Forall_impl; [|exact Htop]. intros idx Hidx. cbv beta in Hidx |- *.
    rewrite (getitem_nth sentences idx []) by exact Hidx.
    rewrite (getitem_nth combined idx PrimFloat.nan) by lia.
    reflexivity.
  - unfold len. rewrite length_map. unfold top.
    rewrite length_rev, length_skipn, Hlo, Hc. unfold len in Hkn. lia.
  - apply StronglySorted_map. simpl.
    unfold top. apply (StronglySorted_rev
      (fun i j => (score_at combined i <=? score_at combined j) = true)).
    now apply StronglySorted_skipn.
Qed.

Lemma prefix_highlights_valid (sentences : list str) (hs : list highlight)
    (m : nat) :
  (m <= length sentences)%nat ->
  map index hs = map Z.of_nat (seq 0 m) ->
  map sentence hs = firstn m sentences ->
  Forall (valid_highlight sentences) hs /\ NoDup (map index hs).
Proof.
  intros Hm Hi Hs. split.
  - apply Forall_forall. intros h Hin.
    apply In_nth_error in Hin. destruct Hin as [i Hnth].
    pose proof (map_nth_error index _ _ Hnth) as Hidx.
    pose proof (map_nth_error sentence _ _ Hnth) as Hsent.
    rewrite Hi in Hidx. rewrite Hs in Hsent.
    assert (Him : (i < m)%nat).
    { apply nth_error_lt in Hidx.
      now rewrite length_map, length_seq in Hidx. }
    rewrite nth_error_map in Hidx.
    rewrite nth_error_seq in Hidx.
    replace (i <? m)%nat with true in Hidx by (symmetry; now apply Nat.ltb_lt).
    simpl in Hidx. inversion Hidx as [Hidx'].
    rewrite nth_error_firstn in Hsent.
    replace (i <? m)%nat with true in Hsent by (symmetry; now apply Nat.ltb_lt).
    unfold valid_highlight. rewrite <- Hidx', Nat2Z.id.
    split; [unfold len; lia | exact Hsent].
  - rewrite Hi. apply Finite.Injective_map_NoDup; [|apply seq_NoDup].
    intros x y. apply Nat2Z.inj.
Qed.

(** Whatever path is taken, for every [k]: when [argsort] keeps its
    promise on the combined scores, the call returns and every highlight
    points into the sentence list, no index twice. *)
Lemma top_k_highlights_valid (original_text summary_text : str) (k : Z) :
  (forall sim,
     tfidf_cosine (split_into_sentences sent_tokenize original_text) summary_text = Returned sim ->
     is_argsort (combined_scores (split_into_sentences sent_tokenize original_text) sim)
       (argsort (combined_scores (split_into_sentences sent_tokenize original_text) sim)) = true) ->
  exists hs,
    top_k_sentences sent_tokenize tfidf_cosine argsort
      original_text summary_text k = Returned hs /\
    Forall (valid_highlight (split_into_sentences sent_tokenize original_text)) hs /\
    NoDup (map index hs).
Proof.
  intros Hargsort. unfold top_k_sentences.
  set (sentences := split_into_sentences sent_tokenize original_text) in *.
  destruct (len sentences =? 0)%Z.
  { exists []. repeat split; constructor. }
  destruct (len sentences <=? k)%Z.
  { exists (all_highlights sentences). split; [reflexivity|].
    destruct (all_highlights_fields sentences) as (Hs & Hi & _).
    apply (prefix_highlights_valid sentences _ (length sentences));
      [lia | exact Hi | now rewrite firstn_all]. }
  destruct (tfidf_highlights tfidf_cosine argsort sentences summary_text k)
    as [hs|e] eqn:Etry.
  - exists hs. split; [reflexivity|].
    destruct (tfidf_highlights_Returned _ _ _ _ Etry) as (sim & Hsim & Hall).
    destruct (is_argsort_facts _ _ (Hargsort sim Hsim)) as (_ & _ & Hnd & _).
    rewrite slice_from in Hall.
    set (top := rev (skipn _ (argsort (combined_scores sentences sim)))) in Hall.
    assert (Htop : NoDup top).
    { unfold top. apply NoDup_rev. now apply NoDup_skipn. }
    clearbody top. clear Etry.
    induction Hall as [|idx h top' hs' (Hi & Hs & _) Hrest IH].
    + split; constructor.
    + inversion Htop as [|? ? Hnotin Hnd']; subst.
      destruct (IH Hnd') as (Hvalid & Hdistinct).
      split.
      * constructor; [|exact Hvalid].
        unfold valid_highlight. rewrite Hi, Nat2Z.id.
        split; [|exact Hs].
        apply nth_error_lt in Hs. unfold len. lia.
      * simpl. constructor; [|exact Hdistinct].
        intros Hin. apply Hnotin.
        clear - Hin Hi Hrest.
        induction Hrest as [|idx' h' top'' hs'' (Hi' & _) Hrest' IH'];
          simpl in Hin; [contradiction|].
        destruct Hin as [Heq|Hin]; [left; lia | right; now apply IH'].
  - destruct (fallback_highlights_fields sentences k)
      as (hs & Hret & Hs & Hi & _).
    exists hs. split; [exact Hret|].
    apply (prefix_highlights_valid sentences _
             (Z.to_nat (Z.min k (len sentences))));
      [unfold len; lia | exact Hi | exact Hs].
Qed.

(** C10: for k >= 1, on every path of [top_k_sentences] (few sentences,
    TF-IDF, fallback) each returned highlight's index i satisfies
    0 <= i < sentence_count, its sentence is the i-th sentence of
    [split_into_sentences] on the original text, and the indices are
    pairwise distinct. *)
Theorem top_k_indices_in_range_distinct (original_text summary_text : str)
    (k : Z) :
  (1 <= k)%Z ->
  (forall sim,
     tfidf_cosine (split_into_sentences sent_tokenize original_text)
       summary_text = Returned sim ->
     is_argsort
       (combined_scores (split_into_sentences sent_tokenize original_text) sim)
       (argsort
          (combined_scores (split_into_sentences sent_tokenize original_text)
             sim)) = true) ->
  exists hs,
    top_k_sentences sent_tokenize tfidf_cosine argsort
      original_text summary_text k = Returned hs /\
    Forall
      (fun h =>
         (0 <= index h < len (split_into_sentences sent_tokenize original_text))%Z
         /\ nth_error (split_into_sentences sent_tokenize original_text)
              (Z.to_nat (index h)) = Some (sentence h))
      hs /\
    NoDup (map index hs).
Proof.
  intros _ Hargsort.
  exact (top_k_highlights_valid original_text summary_text k Hargsort).
Qed.

End HighlighterClaims.

Section HighlighterExamples.

Import Highlight Reference.
Local Open Scope float_scope.

Lemma top_k_few_sentences_witness :
  exists hs,
    top_k_sentences no_tokenizer overlap_similarity insertion_argsort
      sample_text sample_summary 9 = Returned hs /\
    map sentence hs = split_into_sentences no_tokenizer sample_text /\
    map index hs
      = map Z.of_nat
          (seq 0 (length (split_into_sentences no_tokenizer sample_text))) /\
    Forall (fun h => score h = 1.0) hs.
Proof.
  apply (top_k_few_sentences no_tokenizer overlap_similarity insertion_argsort
           sample_text sample_summary 9).
  vm_compute. discriminate.
Defined.

Lemma top_k_fallback_witness :
  exists hs,
    top_k_sentences no_tokenizer failing_tfidf insertion_argsort
      sample_text sample_summary 3 = Returned hs /\
    map sentence hs
      = firstn
          (Z.to_nat
             (Z.min 3 (len (split_into_sentences no_tokenizer sample_text))))
          (split_into_sentences no_tokenizer sample_text) /\
    map index hs
      = map Z.of_nat
          (seq 0
             (Z.to_nat
                (Z.min 3 (len (split_into_sentences no_tokenizer sample_text)))))
    /\ Forall (fun h => score h = 0.5) hs.
Proof.
  apply (top_k_fallback no_tokenizer failing_tfidf insertion_argsort
           sample_text sample_summary 3 "ValueError: empty vocabulary"%string).
  - vm_compute. reflexivity.
  - reflexivity.
Defined.

Lemma top_k_tfidf_sorted_witness :
  exists hs,
    top_k_sentences no_tokenizer overlap_similarity insertion_argsort
      sample_text sample_summary 3 = Returned hs /\
    len hs = Z.min 3 (len (split_into_sentences no_tokenizer sample_text)) /\
    StronglySorted (fun h1 h2 => (score h2 <=? score h1) = true) hs.
Proof.
  eapply (top_k_tfidf_sorted no_tokenizer overlap_similarity insertion_argsort
            sample_text sample_summary 3).
  - lia.
  - vm_compute. reflexivity.
  - unfold overlap_similarity. reflexivity.
  - vm_compute. reflexivity.
  - vm_compute. reflexivity.
Defined.

Lemma top_k_indices_in_range_distinct_witness :
  exists hs,
    top_k_sentences no_tokenizer overlap_similarity insertion_argsort
      sample_text sample_summary 3 = Returned hs /\
    Forall
      (fun h =>
         (0 <= index h < len (split_into_sentences no_tokenizer sample_text))%Z
         /\ nth_error (split_into_sentences no_tokenizer sample_text)
              (Z.to_nat (index h)) = Some (sentence h))
      hs /\
    NoDup (map index hs).
Proof.
  apply (top_k_indices_in_range_distinct no_tokenizer overlap_similarity
           insertion_argsort sample_text sample_summary 3).
  - lia.
  - intros sim Hsim. unfold overlap_similarity in Hsim.
    injection Hsim as <-. vm_compute. reflexivity.
Defined.

End HighlighterExamples.

(** ** Further facts on the Python primitives *)

Section StripFacts.

Lemma lstrip_split (s : str) :
  exists ws, s = ws ++ lstrip s /\ blank ws.
Proof.
  induction s as [|c s IH]; simpl.
  - exists []. split; [reflexivity | constructor].
  - destruct (is_space c) eqn:E.
    + destruct IH as (ws & Hs & Hws). exists (c :: ws). split.
      * simpl. now rewrite <- Hs.
      * now constructor.
    + exists []. split; [reflexivity | constructor].
Qed.

Lemma lstrip_head (s : str) (c : char) (t : str) :
  lstrip s = c :: t -> is_space c = false.
Proof.
  induction s as [|d s IH]; simpl; [discriminate|].
  destruct (is_space d) eqn:E; [exact IH|].
  intros H. inversion H; subst. exact E.
Qed.

Lemma lstrip_blank (s : str) : blank s -> lstrip s = [].
Proof.
  induction 1 as [|c s Hc Hs IH]; simpl; [reflexivity|]. now rewrite Hc.
Qed.

Lemma length_lstrip (s : str) : (length (lstrip s) <= length s)%nat.
Proof.
  destruct (lstrip_split s) as (ws & Hs & _).
  rewrite Hs at 2. rewrite length_app. lia.
Qed.

Lemma length_strip (s : str) : (length (strip s) <= length s)%nat.
Proof.
  unfold strip, rstrip. rewrite length_rev.
  pose proof (length_lstrip (rev (lstrip s))) as H1.
  rewrite length_rev in H1. pose proof (length_lstrip s). lia.
Qed.

Lemma strip_blank (s : str) : blank s -> strip s = [].
Proof. intros H. unfold strip, rstrip. now rewrite (lstrip_blank s H). Qed.

(** What [strip] leaves, when it leaves anything, starts and ends with a
    character that is not whitespace. *)
Lemma strip_trimmed (s : str) : strip s <> [] -> trimmed_nonempty (strip s).
Proof.
  intros Hne. split; [exact Hne|]. unfold strip, rstrip in *.
  set (u := lstrip s) in *.
  destruct (lstrip_split (rev u)) as (ws & Hu & _).
  set (w := lstrip (rev u)) in *.
  assert (Hu' : u = rev w ++ rev ws).
  { rewrite <- rev_app_distr, <- Hu. now rewrite rev_involutive. }
  destruct w as [|d w'] eqn:Ew; [now elim Hne|].
  assert (Hd : is_space d = false) by (apply (lstrip_head (rev u) d w'); exact Ew).
  split.
  - destruct (rev (d :: w')) as [|x xs] eqn:Er; [now elim Hne|].
    simpl. destruct u as [|y u'] eqn:Eu.
    + destruct (rev ws); discriminate.
    + simpl in Hu'. inversion Hu'; subst x.
      apply (lstrip_head s y u'). exact Eu.
  - simpl. now rewrite last_last.
Qed.

(** [strip] removes nothing but whitespace. *)
Lemma filter_lstrip (s : str) :
  filter (fun c => negb (is_space c)) (lstrip s)
  = filter (fun c => negb (is_space c)) s.
Proof.
  induction s as [|c s IH]; simpl; [reflexivity|].
  destruct (is_space c) eqn:E; simpl; [exact IH | now rewrite E].
Qed.

Lemma filter_strip (s : str) :
  filter (fun c => negb (is_space c)) (strip s)
  = filter (fun c => negb (is_space c)) s.
Proof.
  unfold strip, rstrip.
  rewrite <- (rev_involutive (filter _ (rev _))).
  rewrite <- filter_rev, rev_involutive, filter_lstrip.
  rewrite filter_rev, rev_involutive. apply filter_lstrip.
Qed.

End StripFacts.

Section SliceFacts.

Context {A : Type}.

Lemma length_slice (l : list A) (lo hi : Z) :
  0 <= lo <= hi -> hi <= len l ->
  len (slice l (Some lo) (Some hi)) = hi - lo.
Proof.
  intros H1 H2. unfold slice, adjust_index, len in *.
  destruct (Z.ltb_spec lo 0); [lia|].
  destruct (Z.ltb_spec hi 0); [lia|].
  rewrite length_firstn, length_skipn. lia.
Qed.

Lemma length_slice_to (l : list A) (hi : Z) :
  0 <= hi -> len (slice l None (Some hi)) = Z.min hi (len l).
Proof.
  intros H. unfold slice, adjust_index, len in *.
  destruct (Z.ltb_spec hi 0); [lia|].
  rewrite length_firstn, length_skipn. lia.
Qed.

Lemma slice_to_all (l : list A) (hi : Z) :
  len l <= hi -> slice l None (Some hi) = l.
Proof.
  intros H. unfold slice, adjust_index, len in *.
  destruct (Z.ltb_spec hi 0); [lia|].
  simpl. apply firstn_all2. lia.
Qed.

Lemma Forall_firstn (P : A -> Prop) (n : nat) (l : list A) :
  Forall P l -> Forall P (firstn n l).
Proof.
  intros H. rewrite <- (firstn_skipn n l) in H.
  now apply Forall_app in H.
Qed.

Lemma slice_Forall (P : A -> Prop) (l : list A) (lo hi : option Z) :
  Forall P l -> Forall P (slice l lo hi).
Proof. intros H. unfold slice. now apply Forall_firstn, Forall_skipn. Qed.

End SliceFacts.

Section RfindFacts.

Lemma rfind_scan_sound (text sub : str) (lo : Z) (cands : nat) :
  0 <= lo -> rfind_scan text sub lo cands <> -1 ->
  starts_with sub (skipn (Z.to_nat (rfind_scan text sub lo cands)) text) = true.
Proof.
  intros Hlo. induction cands as [|c IH]; simpl; [congruence|].
  destruct (starts_with sub (skipn (Z.to_nat (lo + Z.of_nat c)) text)) eqn:E;
    [intros _; exact E | exact IH].
Qed.

Lemma rfind_scan_highest (text sub : str) (lo : Z) (cands : nat) (i : Z) :
  lo <= i < lo + Z.of_nat cands ->
  starts_with sub (skipn (Z.to_nat i) text) = true ->
  i <= rfind_scan text sub lo cands.
Proof.
  induction cands as [|c IH]; intros Hi Hm; [lia|]. simpl.
  destruct (starts_with sub (skipn (Z.to_nat (lo + Z.of_nat c)) text)) eqn:E;
    [lia|].
  apply IH; [|exact Hm].
  assert (i <> lo + Z.of_nat c) by (intros ->; congruence). lia.
Qed.

(** [rfind] with in-range bounds: a hit is an occurrence of [sub] that lies
    in the window, and no occurrence in the window starts after it. *)
Lemma rfind_sound (text sub : str) (start end_ : Z) :
  0 <= start -> 0 <= end_ <= len text ->
  rfind text sub start end_ <> -1 ->
  starts_with sub (skipn (Z.to_nat (rfind text sub start end_)) text) = true.
Proof.
  intros Hs He. unfold rfind.
  replace (len text <? end_) with false by (symmetry; apply Z.ltb_ge; lia).
  replace (end_ <? 0) with false by (symmetry; apply Z.ltb_ge; lia).
  replace (start <? 0) with false by (symmetry; apply Z.ltb_ge; lia).
  destruct (end_ - start <? len sub); [congruence|].
  now apply rfind_scan_sound.
Qed.

Lemma rfind_highest (text sub : str) (start end_ i : Z) :
  0 <= start -> 0 <= end_ <= len text ->
  start <= i -> i + len sub <= end_ ->
  starts_with sub (skipn (Z.to_nat i) text) = true ->
  i <= rfind text sub start end_.
Proof.
  intros Hs He Hi1 Hi2 Hm. unfold rfind.
  replace (len text <? end_) with false by (symmetry; apply Z.ltb_ge; lia).
  replace (end_ <? 0) with false by (symmetry; apply Z.ltb_ge; lia).
  replace (start <? 0) with false by (symmetry; apply Z.ltb_ge; lia).
  replace (end_ - start <? len sub) with false
    by (symmetry; apply Z.ltb_ge; lia).
  apply rfind_scan_highest; [lia | exact Hm].
Qed.

Lemma starts_with_head (c : char) (sub text : str) (i : nat) :
  starts_with (c :: sub) (skipn i text) = true -> nth_error text i = Some c.
Proof.
  revert i. induction text as [|d text IH]; intros i H.
  - rewrite skipn_nil in H. discriminate.
  - destruct i as [|i]; simpl in *.
    + apply andb_prop in H. destruct H as [H _].
      apply N.eqb_eq in H. now subst.
    + now apply IH.
Qed.

Lemma starts_with_single (c : char) (text : str) (i : nat) :
  nth_error text i = Some c -> starts_with [c] (skipn i text) = true.
Proof.
  revert i. induction text as [|d text IH]; intros i H.
  - destruct i; discriminate.
  - destruct i as [|i]; simpl in *.
    + inversion H; subst. now rewrite N.eqb_refl.
    + now apply IH.
Qed.

End RfindFacts.

(** ** Further properties of the chunker *)

Section ChunkerExtras.

Import Summarize.

Variable text : str.
Variable approx_chars : Z.

(** The [end] of an iteration stays inside the window
    [start, start + approx_chars). *)
Lemma chunk_end_window (start : Z) :
  0 < approx_chars -> 0 <= start < len text ->
  start < chunk_end text approx_chars start
        <= Z.min (len text) (start + approx_chars).
Proof.
  intros HB Hs. unfold chunk_end.
  set (e := Z.min (len text) (start + approx_chars)).
  assert (He : start < e <= len text) by (unfold e; lia).
  destruct (e <? len text) eqn:Elt; [|lia].
  pose proof (rfind_range text newline start e) as H1.
  pose proof (rfind_range text (lit ". ") start e) as H2.
  pose proof (rfind_range text (lit " ") start e) as H3.
  assert (L1 : 1 <= len newline) by (vm_compute; discriminate).
  assert (L2 : 1 <= len (lit ". ")) by (vm_compute; discriminate).
  assert (L3 : 1 <= len (lit " ")) by (vm_compute; discriminate).
  cbv zeta.
  repeat match goal with
         | |- context [?x =? -1] => destruct (Z.eqb_spec x (-1))
         end; lia.
Qed.

(** X4: with a positive budget, every iteration of the chunker ends its
    slice at the end of the text, or exactly [approx_chars] characters
    after its start, or just after a newline, a full stop or a space. *)
Theorem chunk_cut_at_boundary_or_budget (start : Z) :
  0 < approx_chars -> 0 <= start < len text ->
  chunk_end text approx_chars start = len text \/
  chunk_end text approx_chars start = start + approx_chars \/
  exists c,
    nth_error text (Z.to_nat (chunk_end text approx_chars start - 1)) = Some c
    /\ is_boundary c.
Proof.
  intros HB Hs. unfold chunk_end.
  set (e := Z.min (len text) (start + approx_chars)).
  assert (He : start < e <= len text) by (unfold e; lia).
  destruct (e <? len text) eqn:Elt; [|left; apply Z.ltb_ge in Elt; lia].
  apply Z.ltb_lt in Elt. right.
  assert (Hfound : forall c sub,
            rfind text (c :: sub) start e <> -1 ->
            nth_error text (Z.to_nat (rfind text (c :: sub) start e + 1 - 1))
            = Some c).
  { intros c sub Hr. rewrite Z.add_simpl_r.
    apply (starts_with_head c sub). apply rfind_sound; [lia | lia | exact Hr]. }
  cbv zeta.
  destruct (rfind text newline start e =? -1) eqn:E1; cbv iota.
  - destruct (rfind text (lit ". ") start e =? -1) eqn:E2; cbv iota.
    + destruct (rfind text (lit " ") start e =? -1) eqn:E3; cbv iota.
      * left. unfold e. lia.
      * right. exists 32%N. split; [|unfold is_boundary; auto].
        apply (Hfound 32%N []). now apply Z.eqb_neq.
    + rewrite E2. right. exists 46%N. split; [|unfold is_boundary; auto].
      apply (Hfound 46%N [32%N]). now apply Z.eqb_neq.
  - rewrite E1. cbv iota. rewrite E1.
    right. exists 10%N. split; [|unfold is_boundary; auto].
    apply (Hfound 10%N []). now apply Z.eqb_neq.
Qed.

(** X5: when the window of an iteration stops before the end of the text
    and holds a newline, the slice ends just after the last newline of the
    window (newlines win over full stops and spaces). *)
Theorem chunk_cut_after_last_newline (start i : Z) :
  0 < approx_chars -> 0 <= start ->
  start + approx_chars < len text ->
  start <= i < start + approx_chars ->
  nth_error text (Z.to_nat i) = Some 10%N ->
  i < chunk_end text approx_chars start <= start + approx_chars /\
  nth_error text (Z.to_nat (chunk_end text approx_chars start - 1))
    = Some 10%N /\
  (forall j, chunk_end text approx_chars start <= j < start + approx_chars ->
             nth_error text (Z.to_nat j) <> Some 10%N).
Proof.
  intros HB Hs Hwin Hi Hnl. unfold chunk_end.
  replace (Z.min (len text) (start + approx_chars)) with (start + approx_chars)
    by lia.
  replace (start + approx_chars <? len text) with true
    by (symmetry; apply Z.ltb_lt; lia).
  cbv zeta. set (e := start + approx_chars) in *.
  set (r := rfind text newline start e).
  assert (Hhigh : forall j, start <= j < e ->
            nth_error text (Z.to_nat j) = Some 10%N -> j <= r).
  { intros j Hj Hjn. apply rfind_highest; try lia.
    - change (len newline) with 1. lia.
    - change newline with [10%N]. now apply starts_with_single. }
  pose proof (Hhigh i Hi Hnl) as Hir.
  assert (Hr : r <> -1) by lia.
  assert (Er : (r =? -1) = false) by now apply Z.eqb_neq.
  rewrite Er. cbv iota. rewrite Er. cbv iota. rewrite Er.
  destruct (rfind_range text newline start e) as [Hn|Hrange];
    [lia | lia | vm_compute; discriminate | contradiction |].
  fold r in Hrange. repeat split; try lia.
  - rewrite Z.add_simpl_r. apply (starts_with_head 10%N []).
    change (starts_with newline (skipn (Z.to_nat r) text) = true).
    apply rfind_sound; [lia | lia | exact Hr].
  - intros j Hj Hjn. pose proof (Hhigh j ltac:(lia) Hjn). lia.
Qed.

End ChunkerExtras.

Section ChunkerResultExtras.

Import Summarize.

Variable text : str.
Variable approx_chars : Z.

Lemma slice_loop_step (fuel : nat) (start : Z) :
  slice_loop text approx_chars (S fuel) start
  = if start <? len text then
      option_map (cons (raw_slice text approx_chars start))
        (slice_loop text approx_chars fuel
           (chunk_end text approx_chars start + 1))
    else Some [].
Proof. simpl. now rewrite next_start_succ. Qed.

Lemma chunks_of_slices (fuel : nat) (chunks : list str) :
  chunk_text_by_tokens text approx_chars fuel = Some chunks ->
  exists slices,
    chunk_slices text approx_chars fuel = Some slices /\
    chunks = filter truthy (map strip slices).
Proof.
  unfold chunk_text_by_tokens, chunk_slices. rewrite chunk_loop_slices.
  destruct (slice_loop text approx_chars fuel 0) as [slices|]; [|discriminate].
  simpl. intros H. inversion H. now exists slices.
Qed.

(** X1: every chunk [chunk_text_by_tokens] returns is non-empty and
    neither starts nor ends with whitespace, whatever the budget. *)
Theorem chunks_trimmed_nonempty (fuel : nat) (chunks : list str) :
  chunk_text_by_tokens text approx_chars fuel = Some chunks ->
  Forall trimmed_nonempty chunks.
Proof.
  intros H. destruct (chunks_of_slices fuel chunks H) as (slices & _ & ->).
  apply Forall_forall. intros c Hc.
  apply filter_In in Hc. destruct Hc as [Hc Ht].
  apply in_map_iff in Hc. destruct Hc as (s & <- & _).
  apply strip_trimmed. intros E. rewrite E in Ht. discriminate.
Qed.

Lemma slice_loop_within_budget (fuel : nat) (start : Z) (slices : list str) :
  0 < approx_chars -> 0 <= start ->
  slice_loop text approx_chars fuel start = Some slices ->
  Forall (fun s => len s <= approx_chars) slices.
Proof.
  intros HB. revert start slices.
  induction fuel as [|fuel IH]; intros start slices Hs H; [discriminate|].
  rewrite slice_loop_step in H.
  destruct (Z.ltb_spec start (len text)) as [Hlt|Hge];
    [|inversion H; constructor].
  pose proof (chunk_end_window text approx_chars start HB (conj Hs Hlt)) as Hw.
  destruct (slice_loop text approx_chars fuel
              (chunk_end text approx_chars start + 1)) as [rest|] eqn:E;
    [|discriminate].
  simpl in H. inversion H; subst. constructor.
  - unfold raw_slice. rewrite length_slice by lia. lia.
  - apply (IH (chunk_end text approx_chars start + 1)); [lia | exact E].
Qed.

(** X2: with a positive budget no returned chunk is longer than
    [approx_chars] characters. *)
Theorem chunks_within_budget (fuel : nat) (chunks : list str) :
  0 < approx_chars ->
  chunk_text_by_tokens text approx_chars fuel = Some chunks ->
  Forall (fun c => len c <= approx_chars) chunks.
Proof.
  intros HB H. destruct (chunks_of_slices fuel chunks H) as (slices & Hs & ->).
  pose proof (slice_loop_within_budget fuel 0 slices HB (Z.le_refl 0) Hs) as Hb.
  apply Forall_forall. intros c Hc.
  apply filter_In in Hc. destruct Hc as [Hc _].
  apply in_map_iff in Hc. destruct Hc as (s & <- & Hin).
  rewrite Forall_forall in Hb. specialize (Hb s Hin).
  pose proof (length_strip s). unfold len in *. lia.
Qed.

Lemma slice_loop_accounts (fuel : nat) (start : Z) (slices : list str) :
  0 < approx_chars -> 0 <= start < len text ->
  slice_loop text approx_chars fuel start = Some slices ->
  len text - start <= len (concat slices) + len slices <= len text - start + 1.
Proof.
  intros HB. revert start slices.
  induction fuel as [|fuel IH]; intros start slices Hs H; [discriminate|].
  rewrite slice_loop_step in H.
  replace (start <? len text) with true in H by (symmetry; apply Z.ltb_lt; lia).
  pose proof (chunk_end_window text approx_chars start HB Hs) as Hw.
  set (e := chunk_end text approx_chars start) in *.
  destruct (slice_loop text approx_chars fuel (e + 1)) as [rest|] eqn:E;
    [|discriminate].
  simpl in H. inversion H; subst slices. clear H.
  assert (Hraw : len (raw_slice text approx_chars start) = e - start)
    by (unfold raw_slice; fold e; apply length_slice; lia).
  assert (Hsum : len (concat (raw_slice text approx_chars start :: rest))
                 + len (raw_slice text approx_chars start :: rest)
                 = (e - start) + 1 + (len (concat rest) + len rest)).
  { unfold len in *. simpl. rewrite length_app. lia. }
  rewrite Hsum.
  destruct (Z.ltb_spec (e + 1) (len text)) as [Hlt|Hge].
  - pose proof (IH (e + 1) rest ltac:(lia) E). lia.
  - destruct fuel as [|fuel']; [discriminate|].
    rewrite slice_loop_step in E.
    replace (e + 1 <? len text) with false in E
      by (symmetry; apply Z.ltb_ge; lia).
    inversion E; subst rest. unfold len. simpl. unfold len in *. lia.
Qed.

(** X3: with a positive budget on a non-empty text, the untrimmed slices
    of a run miss as many characters of the text as there are slices, or
    one fewer: one character goes after every slice but possibly the
    last. *)
Theorem chunk_slices_drop_one_per_cut (fuel : nat) (slices : list str) :
  0 < approx_chars -> text <> [] ->
  chunk_slices text approx_chars fuel = Some slices ->
  len slices - 1 <= len text - len (concat slices) <= len slices.
Proof.
  intros HB Hne H.
  assert (0 < len text) by (destruct text; [congruence | unfold len; simpl; lia]).
  pose proof (slice_loop_accounts fuel 0 slices HB ltac:(lia) H). lia.
Qed.

End ChunkerResultExtras.

(** ** Further properties of the orchestrator *)

Section OrchestratorExtras.

Import Summarize.

Variable summarizer : str -> Z -> Z -> result str.

Lemma slice_loop_blank (text : str) (B : Z) (fuel : nat) (start : Z)
    (slices : list str) :
  blank text ->
  slice_loop text B fuel start = Some slices ->
  Forall blank slices.
Proof.
  intros Hb. revert start slices.
  induction fuel as [|fuel IH]; intros start slices H; [discriminate|].
  simpl in H. destruct (start <? len text); [|inversion H; constructor].
  destruct (slice_loop text B fuel (next_start (chunk_end text B start)))
    as [rest|] eqn:E; [|discriminate].
  simpl in H. inversion H; subst. constructor.
  - unfold raw_slice. now apply slice_Forall.
  - exact (IH _ rest E).
Qed.

Lemma chunk_text_blank (text : str) (B : Z) (fuel : nat) (chunks : list str) :
  blank text ->
  chunk_text_by_tokens text B fuel = Some chunks -> chunks = [].
Proof.
  intros Hb H. destruct (chunks_of_slices text B fuel chunks H)
    as (slices & Hs & ->).
  pose proof (slice_loop_blank text B fuel 0 slices Hb Hs) as Hall.
  clear Hs H. induction Hall as [|s rest Hs Hrest IH]; [reflexivity|].
  simpl. now rewrite (strip_blank s Hs).
Qed.

Lemma chunk_text_finishes (text : str) (B : Z) :
  0 < B ->
  exists chunks, forall fuel, (length text < fuel)%nat ->
    chunk_text_by_tokens text B fuel = Some chunks.
Proof.
  intros HB.
  destruct (chunk_loop_finishes text B (S (length text)) [] 0 HB)
    as [out Hout]; [lia | unfold len; lia |].
  exists out. intros fuel Hf. unfold chunk_text_by_tokens.
  apply (chunk_loop_more_fuel text B (S (length text))); [exact Hout | lia].
Qed.

(** X8: a long text (length >= 2000) of whitespace only, with a positive
    budget, gives ["No content to summarize."], whatever the summarizer. *)
Theorem generate_summary_blank_long_text (text : str)
    (max_chunk_chars mx mn : Z) (fuel : nat) :
  2000 <= len text -> blank text -> 0 < max_chunk_chars ->
  (length text < fuel)%nat ->
  generate_summary summarizer fuel text max_chunk_chars mx mn
  = Some (Returned no_content).
Proof.
  intros Hlong Hb HB Hf. unfold generate_summary.
  replace (len text <? 150) with false by (symmetry; apply Z.ltb_ge; lia).
  replace (len text <? 2000) with false by (symmetry; apply Z.ltb_ge; lia).
  destruct (chunk_text_finishes text max_chunk_chars HB) as [chunks Hc].
  rewrite (Hc fuel Hf).
  now rewrite (chunk_text_blank text max_chunk_chars fuel chunks Hb (Hc fuel Hf)).
Qed.

(** X6: with a positive chunk budget [generate_summary] always returns a
    string: the chunking ends (any fuel above the length of the text gives
    the same result) and no failure of the summarizer gets out. *)
Theorem generate_summary_returns (text : str) (max_chunk_chars mx mn : Z) :
  0 < max_chunk_chars ->
  exists summary, forall fuel, (length text < fuel)%nat ->
    generate_summary summarizer fuel text max_chunk_chars mx mn
    = Some (Returned summary).
Proof.
  intros HB. unfold generate_summary.
  destruct (len text <? 150); [now eexists|].
  destruct (len text <? 2000).
  - destruct (summarizer text mx mn); now eexists.
  - destruct (chunk_text_finishes text max_chunk_chars HB) as [chunks Hc].
    destruct (negb (truthy chunks)) eqn:Et.
    + exists no_content. intros fuel Hf. now rewrite (Hc fuel Hf), Et.
    + destruct (len (map (partial_summary summarizer mx mn) chunks) =? 1) eqn:E1.
      * eexists. intros fuel Hf. rewrite (Hc fuel Hf), Et, E1. reflexivity.
      * eexists. intros fuel Hf. rewrite (Hc fuel Hf), Et, E1. reflexivity.
Qed.

(** X7: a text shorter than 150 characters is returned without any call
    of the summarizer, cut to its first [summary_max_length] characters
    (for a non-negative [summary_max_length]); it comes back unchanged when
    it fits. *)
Theorem generate_summary_short_text (fuel : nat) (text : str)
    (max_chunk_chars mx mn : Z) :
  len text < 150 -> 0 <= mx ->
  generate_summary summarizer fuel text max_chunk_chars mx mn
    = Some (Returned (firstn (Z.to_nat mx) text)) /\
  (len text <= mx ->
   generate_summary summarizer fuel text max_chunk_chars mx mn
     = Some (Returned text)).
Proof.
  intros Hshort Hmx. unfold generate_summary.
  replace (len text <? 150) with true by (symmetry; apply Z.ltb_lt; lia).
  split.
  - do 2 f_equal. unfold slice, adjust_index.
    destruct (Z.ltb_spec mx 0); [lia|]. simpl. rewrite Z.sub_0_r.
    destruct (Z.min_spec mx (len text)) as [[_ ->]|[Hle ->]]; [reflexivity|].
    unfold len in *. rewrite Nat2Z.id.
    rewrite firstn_all. symmetry. apply firstn_all2. lia.
  - intros Hfit. now rewrite slice_to_all.
Qed.

(** X9: when a long text gives two or more chunks, the returned summary
    has at most [summary_max_length] characters (for a non-negative
    [summary_max_length]), whatever the summarizer returns. *)
Theorem generate_summary_combined_bounded (fuel : nat) (text : str)
    (max_chunk_chars mx mn : Z) (chunks : list str) :
  2000 <= len text -> 0 <= mx ->
  chunk_text_by_tokens text max_chunk_chars fuel = Some chunks ->
  (2 <= length chunks)%nat ->
  exists summary,
    generate_summary summarizer fuel text max_chunk_chars mx mn
      = Some (Returned summary) /\
    len summary <= mx.
Proof.
  intros Hlong Hmx Hc Htwo. unfold generate_summary.
  replace (len text <? 150) with false by (symmetry; apply Z.ltb_ge; lia).
  replace (len text <? 2000) with false by (symmetry; apply Z.ltb_ge; lia).
  rewrite Hc.
  destruct chunks as [|c1 [|c2 rest]]; simpl in Htwo; try lia.
  simpl negb. cbv iota.
  replace (len (map (partial_summary summarizer mx mn) (c1 :: c2 :: rest)) =? 1)
    with false
    by (symmetry; apply Z.eqb_neq; unfold len; simpl; lia).
  eexists. split; [reflexivity|].
  rewrite length_slice_to by lia. lia.
Qed.

End OrchestratorExtras.

(** ** Further properties of the highlighter *)

Section SentenceExtras.

Import Highlight.

Variable sent_tokenize : str -> result (list str).

Lemma stripped_nonempty_trimmed (pieces : list str) :
  Forall trimmed_nonempty (stripped_nonempty pieces).
Proof.
  unfold stripped_nonempty. apply Forall_forall. intros s Hs.
  apply filter_In in Hs. destruct Hs as [Hs Ht].
  apply in_map_iff in Hs. destruct Hs as (p & <- & _).
  apply strip_trimmed. intros E. rewrite E in Ht. discriminate.
Qed.

(** X10: every sentence [split_into_sentences] returns is non-empty and
    neither starts nor ends with whitespace, on the tokenizer path as on the
    regex path. *)
Theorem split_into_sentences_trimmed (text : str) :
  Forall trimmed_nonempty (split_into_sentences sent_tokenize text).
Proof.
  unfold split_into_sentences.
  destruct (sent_tokenize text); apply stripped_nonempty_trimmed.
Qed.

Lemma re_split_scan_no_end (piece text : str) :
  Forall (fun c => is_sentence_end c = false) text ->
  re_split_scan AfterOther piece text = [piece ++ text].
Proof.
  intros H. revert piece.
  induction H as [|c rest Hc Hrest IH]; intros piece; simpl.
  - now rewrite app_nil_r.
  - unfold after. rewrite Hc, IH. now rewrite <- app_assoc.
Qed.

(** X11: on the regex path a text without [.], [!] or [?] is one
    sentence, the trimmed text, or no sentence when the text is blank. *)
Theorem split_without_sentence_end (text : str) (e : exn) :
  sent_tokenize text = Raised e ->
  Forall (fun c => is_sentence_end c = false) text ->
  split_into_sentences sent_tokenize text
  = if truthy (strip text) then [strip text] else [].
Proof.
  intros Htok Hno. unfold split_into_sentences. rewrite Htok.
  unfold re_split_sentences. rewrite re_split_scan_no_end by exact Hno.
  reflexivity.
Qed.

Lemma visible_app (a b : str) : visible (a ++ b) = visible a ++ visible b.
Proof. apply filter_app. Qed.

Lemma re_split_scan_visible (st : scan_state) (piece text : str) :
  visible (concat (re_split_scan st piece text)) = visible (piece ++ text).
Proof.
  revert st piece. induction text as [|c rest IH]; intros st piece.
  - simpl. now rewrite !app_nil_r.
  - assert (Hkeep : forall st',
              visible (concat (re_split_scan st' (piece ++ [c]) rest))
              = visible (piece ++ c :: rest)).
    { intros st'. rewrite IH. now rewrite <- app_assoc. }
    assert (Hskip : is_space c = true ->
              visible (piece ++ c :: rest) = visible (piece ++ rest)).
    { intros E. rewrite !visible_app. f_equal. unfold visible. simpl.
      now rewrite E. }
    destruct st; cbn [re_split_scan].
    + destruct (is_space c) eqn:E; [|apply Hkeep].
      rewrite (Hskip eq_refl). cbn [concat].
      rewrite !visible_app. f_equal. apply (IH InSeparator []).
    + apply Hkeep.
    + destruct (is_space c) eqn:E; [|apply Hkeep].
      rewrite (Hskip eq_refl). apply IH.
Qed.

Lemma stripped_nonempty_visible (pieces : list str) :
  visible (concat (stripped_nonempty pieces)) = visible (concat pieces).
Proof.
  unfold stripped_nonempty.
  induction pieces as [|p rest IH]; [reflexivity|].
  cbn [map filter concat]. rewrite visible_app, <- IH.
  assert (Hp : visible (strip p) = visible p) by apply filter_strip.
  destruct (strip p) as [|c s] eqn:E; cbn [truthy].
  - now rewrite <- Hp.
  - cbn [concat]. rewrite visible_app. now rewrite Hp.
Qed.

(** X12: on the regex path the sentences, put together, hold exactly the
    non-whitespace characters of the text, in order: splitting loses
    whitespace only. *)
Theorem regex_split_keeps_visible_text (text : str) (e : exn) :
  sent_tokenize text = Raised e ->
  visible (concat (split_into_sentences sent_tokenize text)) = visible text.
Proof.
  intros Htok. unfold split_into_sentences. rewrite Htok.
  rewrite stripped_nonempty_visible. unfold re_split_sentences.
  now rewrite re_split_scan_visible.
Qed.

End SentenceExtras.

Section TopKExtras.

Import Highlight.
Local Open Scope float_scope.

Variable sent_tokenize : str -> result (list str).
Variable tfidf_cosine : list str -> str -> result (list float).
Variable argsort : list float -> list nat.

Lemma Forall2_length_eq {A B : Type} (R : A -> B -> Prop) (l : list A)
    (l' : list B) :
  Forall2 R l l' -> length l = length l'.
Proof. induction 1; simpl; congruence. Qed.

Lemma length_slice_last {A : Type} (l : list A) (k : Z) :
  (1 <= k)%Z -> (len (slice l (Some (- k)%Z) None) <= k)%Z.
Proof.
  intros Hk. rewrite slice_from. unfold len, adjust_index.
  rewrite length_skipn.
  destruct (Z.ltb_spec (- k) 0); lia.
Qed.

(** X13: for k >= 1, whatever the tokenizer, the vectorizer and
    [argsort] do, [top_k_sentences] returns (it never raises) at most
    min(k, sentence_count) highlights. *)
Theorem top_k_at_most_k (original_text summary_text : str) (k : Z) :
  (1 <= k)%Z ->
  exists hs,
    top_k_sentences sent_tokenize tfidf_cosine argsort
      original_text summary_text k = Returned hs /\
    (len hs <= Z.min k (len (split_into_sentences sent_tokenize original_text)))%Z.
Proof.
  intros Hk. unfold top_k_sentences.
  set (sentences := split_into_sentences sent_tokenize original_text).
  destruct (Z.eqb_spec (len sentences) 0) as [E0|E0].
  { exists []. split; [reflexivity|]. unfold len in *. simpl. lia. }
  destruct (Z.leb_spec (len sentences) k) as [Hle|Hgt].
  { exists (all_highlights sentences). split; [reflexivity|].
    destruct (all_highlights_fields sentences) as (Hs & _ & _).
    unfold len in *. rewrite <- (length_map sentence), Hs. lia. }
  destruct (tfidf_highlights tfidf_cosine argsort sentences summary_text k)
    as [hs|e] eqn:Etry.
  - exists hs. split; [reflexivity|].
    destruct (tfidf_highlights_Returned _ _ _ _ _ _ Etry) as (sim & _ & Hall).
    apply Forall2_length_eq in Hall. rewrite length_rev in Hall.
    replace (Z.min k (len sentences)) with k in * by lia.
    pose proof (length_slice_last
                  (argsort (combined_scores sentences sim)) k Hk).
    unfold len in *. lia.
  - destruct (fallback_highlights_fields sentences k)
      as (hs & Hret & Hs & _ & _).
    exists hs. split; [exact Hret|].
    unfold len in *. rewrite <- (length_map sentence), Hs, length_firstn. lia.
Qed.

(** The [try] body when the vectorizer and [argsort] keep their promises:
    one highlight per entry of the reversed slice. *)
Lemma tfidf_highlights_contract (sentences : list str) (summary_text : str)
    (k : Z) (sim : list float) :
  tfidf_cosine sentences summary_text = Returned sim ->
  length sim = length sentences ->
  is_argsort (combined_scores sentences sim)
    (argsort (combined_scores sentences sim)) = true ->
  tfidf_highlights tfidf_cosine argsort sentences summary_text k
  = Returned
      (map (fun idx =>
              Build_highlight (Z.of_nat idx) (nth idx sentences [])
                (score_at (combined_scores sentences sim) idx))
           (rev (slice (argsort (combined_scores sentences sim))
                       (Some (- Z.min k (len sentences))%Z) None))).
Proof.
  intros Hsim Hlen Hsort. unfold tfidf_highlights. rewrite Hsim.
  set (combined := combined_scores sentences sim) in *.
  assert (Hc : length combined = length sentences)
    by now apply length_combined_scores.
  destruct (is_argsort_facts _ _ Hsort) as (_ & Hrange & _ & _).
  apply comprehension_map.
  apply Forall_rev. rewrite slice_from. apply Forall_skipn.
  eapply Forall_impl; [|exact Hrange]. intros idx Hidx. cbv beta in Hidx |- *.
  rewrite (getitem_nth sentences idx []) by lia.
  rewrite (getitem_nth combined idx PrimFloat.nan) by lia.
  reflexivity.
Qed.

(** X14: for k <= 0 and at least one sentence, a successful TF-IDF path
    returns max(0, sentence_count + k) highlights: with k = 0 the slice
    [[-0:]] is the whole array and every sentence comes back. *)
Theorem top_k_nonpositive_k (original_text summary_text : str) (k : Z)
    (sim : list float) :
  (k <= 0)%Z ->
  (1 <= len (split_into_sentences sent_tokenize original_text))%Z ->
  tfidf_cosine (split_into_sentences sent_tokenize original_text) summary_text
    = Returned sim ->
  length sim = length (split_into_sentences sent_tokenize original_text) ->
  is_argsort
    (combined_scores (split_into_sentences sent_tokenize original_text) sim)
    (argsort
       (combined_scores (split_into_sentences sent_tokenize original_text) sim))
    = true ->
  exists hs,
    top_k_sentences sent_tokenize tfidf_cosine argsort
      original_text summary_text k = Returned hs /\
    len hs
    = Z.max 0 (len (split_into_sentences sent_tokenize original_text) + k)%Z.
Proof.
  intros Hk Hn Hsim Hlen Hsort. unfold top_k_sentences.
  set (sentences := split_into_sentences sent_tokenize original_text) in *.
  replace (len sentences =? 0)%Z with false by (symmetry; apply Z.eqb_neq; lia).
  replace (len sentences <=? k)%Z with false by (symmetry; apply Z.leb_gt; lia).
  rewrite (tfidf_highlights_contract sentences summary_text k sim Hsim Hlen Hsort).
  eexists. split; [reflexivity|].
  destruct (is_argsort_facts _ _ Hsort) as (Hlo & _ & _ & _).
  rewrite (length_combined_scores sentences sim Hlen) in Hlo.
  unfold len in *. rewrite length_map, length_rev, slice_from, length_skipn.
  unfold len, adjust_index. rewrite Hlo.
  destruct (Z.ltb_spec (- Z.min k (Z.of_nat (length sentences))) 0); lia.
Qed.

Lemma StronglySorted_app_cross {A : Type} (R : A -> A -> Prop)
    (l1 l2 : list A) (a b : A) :
  StronglySorted R (l1 ++ l2) -> In a l1 -> In b l2 -> R a b.
Proof.
  induction l1 as [|x l1 IH]; intros Hs Ha Hb; [contradiction|].
  simpl in Hs. apply StronglySorted_inv in Hs. destruct Hs as [Hs Hx].
  destruct Ha as [->|Ha].
  - rewrite Forall_forall in Hx. apply Hx, in_or_app. now right.
  - now apply IH.
Qed.

(** X15: on a successful TF-IDF path every highlight carries the combined
    score of its sentence, and that score is at least the combined score of
    every sentence that is not returned. *)
Theorem top_k_dominates_the_rest (original_text summary_text : str) (k : Z)
    (sim : list float) :
  (0 < len (split_into_sentences sent_tokenize original_text))%Z ->
  (k < len (split_into_sentences sent_tokenize original_text))%Z ->
  tfidf_cosine (split_into_sentences sent_tokenize original_text) summary_text
    = Returned sim ->
  length sim = length (split_into_sentences sent_tokenize original_text) ->
  is_argsort
    (combined_scores (split_into_sentences sent_tokenize original_text) sim)
    (argsort
       (combined_scores (split_into_sentences sent_tokenize original_text) sim))
    = true ->
  exists hs,
    top_k_sentences sent_tokenize tfidf_cosine argsort
      original_text summary_text k = Returned hs /\
    (forall h, In h hs ->
       score h
       = score_at
           (combined_scores
              (split_into_sentences sent_tokenize original_text) sim)
           (Z.to_nat (index h))) /\
    (forall j h,
       (j < length (split_into_sentences sent_tokenize original_text))%nat ->
       ~ In (Z.of_nat j) (map index hs) ->
       In h hs ->
       (score_at
          (combined_scores
             (split_into_sentences sent_tokenize original_text) sim) j
        <=? score h) = true).
Proof.
  intros Hn Hk Hsim Hlen Hsort. unfold top_k_sentences.
  set (sentences := split_into_sentences sent_tokenize original_text) in *.
  replace (len sentences =? 0)%Z with false by (symmetry; apply Z.eqb_neq; lia).
  replace (len sentences <=? k)%Z with false by (symmetry; apply Z.leb_gt; lia).
  rewrite (tfidf_highlights_contract sentences summary_text k sim Hsim Hlen Hsort).
  set (combined := combined_scores sentences sim) in *.
  rewrite slice_from.
  set (m := Z.to_nat (adjust_index (len (argsort combined))
                        (- Z.min k (len sentences)))).
  set (g := fun idx => Build_highlight (Z.of_nat idx) (nth idx sentences [])
                         (score_at combined idx)).
  exists (map g (rev (skipn m (argsort combined)))).
  split; [reflexivity|]. split.
  - intros h Hh. apply in_map_iff in Hh. destruct Hh as (idx & <- & _).
    simpl. now rewrite Nat2Z.id.
  - intros j h Hj Hnot Hh.
    destruct (is_argsort_facts _ _ Hsort) as (Hlo & Hrange & Hnd & Hasc).
    assert (Hc : length combined = length sentences)
      by now apply length_combined_scores.
    rewrite Hc in Hlo, Hrange.
    apply in_map_iff in Hh. destruct Hh as (idx & <- & Hidx).
    apply in_rev in Hidx. simpl.
    assert (Hin : In j (argsort combined)).
    { apply (NoDup_length_incl Hnd (l' := seq 0 (length sentences))).
      - rewrite length_seq. lia.
      - intros x Hx. rewrite Forall_forall in Hrange.
        apply in_seq. specialize (Hrange x Hx). lia.
      - apply in_seq. lia. }
    rewrite <- (firstn_skipn m (argsort combined)) in Hin, Hasc.
    apply in_app_or in Hin. destruct Hin as [Hpre|Hsuf].
    + exact (StronglySorted_app_cross _ _ _ j idx Hasc Hpre Hidx).
    + exfalso. apply Hnot. rewrite map_map. simpl.
      apply in_map. now apply -> in_rev.
Qed.

End TopKExtras.

(** ** The helpers of the request handler *)

Section AppFacts.

Import App.

Lemma str_eqb_eq (a b : str) : str_eqb a b = true <-> a = b.
Proof.
  revert b. induction a as [|c a IH]; intros [|d b]; simpl;
    try (split; [discriminate | congruence]); [tauto|].
  rewrite andb_true_iff, N.eqb_eq, IH. split.
  - intros [-> ->]. reflexivity.
  - intros H. inversion H. auto.
Qed.

Lemma rsplit_once_absent (sep : char) (s : str) :
  contains sep s = false -> rsplit_once sep s = None.
Proof.
  induction s as [|c s IH]; simpl; [reflexivity|].
  intros H. apply orb_false_iff in H. destruct H as [Hc Hs].
  rewrite (IH Hs). rewrite N.eqb_sym. now rewrite Hc.
Qed.

Lemma rsplit_once_last (sep : char) (stem ext : str) :
  contains sep ext = false ->
  rsplit_once sep (stem ++ sep :: ext) = Some (stem, ext).
Proof.
  intros H. induction stem as [|c stem IH]; simpl.
  - rewrite (rsplit_once_absent sep ext H). now rewrite N.eqb_refl.
  - now rewrite IH.
Qed.

Lemma rsplit_once_present (sep : char) (s : str) :
  contains sep s = true -> exists a b, rsplit_once sep s = Some (a, b).
Proof.
  induction s as [|c s IH]; simpl; [discriminate|].
  intros H. destruct (rsplit_once sep s) as [[a b]|] eqn:E; [now eexists; eexists|].
  destruct (N.eqb c sep) eqn:Ec; [now eexists; eexists|].
  rewrite N.eqb_sym, Ec in H. simpl in H.
  destruct (IH H) as (a & b & Hab). discriminate.
Qed.

Variable lower : str -> str.

(** X19: for a file name with a dot, [allowed_file] looks only at what
    follows the last dot: the name is allowed exactly when that part,
    lower-cased, is ["pdf"] or ["txt"]. *)
Theorem allowed_file_by_extension (stem ext : str) :
  contains dot ext = false ->
  allowed_file lower (stem ++ dot :: ext)
  = Returned (existsb (str_eqb (lower ext)) ALLOWED_EXTENSIONS).
Proof.
  intros H. unfold allowed_file.
  replace (contains dot (stem ++ dot :: ext)) with true.
  - unfold rsplit1. now rewrite (rsplit_once_last dot stem ext H).
  - symmetry. unfold contains. rewrite existsb_app. simpl.
    now rewrite orb_true_r.
Qed.

(** X20: [allowed_file] never raises (the [[1]] is guarded by the test
    for a dot) and a name without a dot is not allowed. *)
Theorem allowed_file_never_raises (filename : str) :
  exists allowed,
    allowed_file lower filename = Returned allowed /\
    (contains dot filename = false -> allowed = false).
Proof.
  unfold allowed_file. destruct (contains dot filename) eqn:E.
  - destruct (rsplit_once_present dot filename E) as (a & b & Hab).
    unfold rsplit1. rewrite Hab. simpl. eexists. split; [reflexivity|].
    discriminate.
  - exists false. split; reflexivity.
Qed.

(** X18: [get_length_params] returns for every key: the bounds satisfy
    0 < min_len < max_len, and every key other than ["short"] and ["long"]
    gets the bounds of ["medium"], 180 and 60. *)
Theorem get_length_params_defaults (length : str) :
  exists params,
    get_length_params length = Returned params /\
    0 < min_len params < max_len params /\
    (length <> lit "short" -> length <> lit "long" ->
     params = Build_length_params 180 60).
Proof.
  unfold get_length_params. simpl dict_lookup at 1.
  unfold length_configs, dict_lookup.
  destruct (str_eqb length (lit "short")) eqn:E1.
  { eexists. split; [reflexivity|]. split; [simpl; lia|].
    apply str_eqb_eq in E1. congruence. }
  destruct (str_eqb length (lit "medium")) eqn:E2.
  { eexists. split; [reflexivity|]. split; [simpl; lia | reflexivity]. }
  destruct (str_eqb length (lit "long")) eqn:E3.
  { eexists. split; [reflexivity|]. split; [simpl; lia|].
    apply str_eqb_eq in E3. congruence. }
  eexists. split; [reflexivity|]. split; [simpl; lia | reflexivity].
Qed.

End AppFacts.

(** ** Further properties of the PDF extractor *)

Section ExtractExtras.

Import Extract.

Lemma pages_loop_first_raise (text : str) (before after : list page) (e : exn) :
  Forall never_raises before ->
  pages_loop text (before ++ PageRaises e :: after) = Raised e.
Proof.
  intros H. revert text.
  induction H as [|p before Hp Hb IH]; intros text; [reflexivity|].
  destruct p as [t| |e']; simpl in *; [|apply IH|contradiction].
  destruct (truthy t); apply IH.
Qed.

(** X16: the first page whose extraction raises aborts
    [extract_text_from_pdf_fileobj]: the text of the pages before it is
    dropped and the exception raised carries the page's message after
    ["PDF extraction failed: "]. *)
Theorem extract_pdf_first_raising_page (before after : list page) (e : exn) :
  Forall never_raises before ->
  extract_text_from_pdf_fileobj (Returned (before ++ PageRaises e :: after))
  = Raised ("PDF extraction failed: " ++ e)%string.
Proof.
  intros H. unfold extract_text_from_pdf_fileobj.
  now rewrite (pages_loop_first_raise [] before after e H).
Qed.

(** X17: when no page raises, [extract_text_from_pdf_fileobj] returns
    the empty string exactly when no page yields text. *)
Theorem extract_pdf_empty_iff_no_text (pages : list (option str)) :
  extract_text_from_pdf_fileobj (Returned (map page_of pages)) = Returned []
  <-> yielded pages = [].
Proof.
  unfold extract_text_from_pdf_fileobj. rewrite pages_loop_appends. simpl.
  unfold newline_terminated. split.
  - intros H. inversion H as [Hc].
    destruct (yielded pages) as [|t rest]; [reflexivity|].
    simpl in Hc. destruct t; discriminate.
  - intros ->. reflexivity.
Qed.

End ExtractExtras.

(** ** The further properties on examples *)

Section FurtherExamples.

Import Summarize Highlight Extract App Reference.
Local Open Scope float_scope.

Lemma chunk_cut_at_boundary_or_budget_witness :
  chunk_end sample_text 20 0 = len sample_text \/
  chunk_end sample_text 20 0 = (0 + 20)%Z \/
  exists c,
    nth_error sample_text (Z.to_nat (chunk_end sample_text 20 0 - 1)) = Some c
    /\ is_boundary c.
Proof.
  apply (chunk_cut_at_boundary_or_budget sample_text 20 0).
  - lia.
  - vm_compute. split; [discriminate | reflexivity].
Defined.

Lemma chunk_cut_after_last_newline_witness :
  (5 < chunk_end two_lines 10 0 <= 0 + 10)%Z /\
  nth_error two_lines (Z.to_nat (chunk_end two_lines 10 0 - 1)) = Some 10%N /\
  (forall j, (chunk_end two_lines 10 0 <= j < 0 + 10)%Z ->
             nth_error two_lines (Z.to_nat j) <> Some 10%N).
Proof.
  apply (chunk_cut_after_last_newline two_lines 10 0 5).
  - lia.
  - lia.
  - vm_compute. reflexivity.
  - lia.
  - reflexivity.
Defined.

Lemma chunks_trimmed_nonempty_witness :
  exists chunks,
    chunk_text_by_tokens sample_text 20 100 = Some chunks /\
    Forall trimmed_nonempty chunks.
Proof.
  eexists. split.
  - vm_compute. reflexivity.
  - apply (chunks_trimmed_nonempty sample_text 20 100).
    vm_compute. reflexivity.
Defined.

Lemma chunks_within_budget_witness :
  exists chunks,
    chunk_text_by_tokens sample_text 20 100 = Some chunks /\
    Forall (fun c => (len c <= 20)%Z) chunks.
Proof.
  eexists. split.
  - vm_compute. reflexivity.
  - apply (chunks_within_budget sample_text 20 100).
    + lia.
    + vm_compute. reflexivity.
Defined.

Lemma chunk_slices_drop_one_per_cut_witness :
  exists slices,
    chunk_slices sample_text 20 100 = Some slices /\
    (len slices - 1 <= len sample_text - len (concat slices) <= len slices)%Z.
Proof.
  eexists. split.
  - vm_compute. reflexivity.
  - apply (chunk_slices_drop_one_per_cut sample_text 20 100).
    + lia.
    + discriminate.
    + vm_compute. reflexivity.
Defined.

Lemma generate_summary_blank_long_text_witness :
  generate_summary failing_summarizer 2001 blank_text 1200 180 60
  = Some (Returned no_content).
Proof.
  apply (generate_summary_blank_long_text failing_summarizer
           blank_text 1200 180 60 2001).
  - vm_compute. discriminate.
  - apply Forall_forall. intros c Hc.
    apply repeat_spec in Hc. subst c. reflexivity.
  - lia.
  - unfold blank_text. rewrite repeat_length. lia.
Defined.

Lemma generate_summary_returns_witness :
  exists summary, forall fuel, (length long_text < fuel)%nat ->
    generate_summary failing_summarizer fuel long_text 1200 180 60
    = Some (Returned summary).
Proof.
  apply (generate_summary_returns failing_summarizer long_text 1200 180 60).
  lia.
Defined.

Lemma generate_summary_short_text_witness :
  generate_summary failing_summarizer 0 sample_text 1200 180 60
    = Some (Returned (firstn (Z.to_nat 180) sample_text)) /\
  ((len sample_text <= 180)%Z ->
   generate_summary failing_summarizer 0 sample_text 1200 180 60
     = Some (Returned sample_text)).
Proof.
  apply (generate_summary_short_text failing_summarizer 0 sample_text
           1200 180 60).
  - vm_compute. reflexivity.
  - lia.
Defined.

Lemma generate_summary_combined_bounded_witness :
  exists summary,
    generate_summary failing_summarizer 2001 long_text 800 180 60
      = Some (Returned summary) /\
    (len summary <= 180)%Z.
Proof.
  eapply (generate_summary_combined_bounded failing_summarizer 2001
            long_text 800 180 60).
  - vm_compute. discriminate.
  - lia.
  - vm_compute. reflexivity.
  - simpl. lia.
Defined.

Lemma split_without_sentence_end_witness :
  split_into_sentences no_tokenizer (lit "  no full stop here ")
  = if truthy (strip (lit "  no full stop here "))
    then [strip (lit "  no full stop here ")] else [].
Proof.
  apply (split_without_sentence_end no_tokenizer
           (lit "  no full stop here ") "LookupError"%string).
  - reflexivity.
  - repeat constructor.
Defined.

Lemma regex_split_keeps_visible_text_witness :
  visible (concat (split_into_sentences no_tokenizer sample_text))
  = visible sample_text.
Proof.
  apply (regex_split_keeps_visible_text no_tokenizer sample_text
           "LookupError"%string).
  reflexivity.
Defined.

Lemma top_k_at_most_k_witness :
  exists hs,
    top_k_sentences no_tokenizer overlap_similarity insertion_argsort
      sample_text sample_summary 3 = Returned hs /\
    (len hs <= Z.min 3 (len (split_into_sentences no_tokenizer sample_text)))%Z.
Proof.
  apply (top_k_at_most_k no_tokenizer overlap_similarity insertion_argsort
           sample_text sample_summary 3).
  lia.
Defined.

Lemma top_k_nonpositive_k_witness :
  exists hs,
    top_k_sentences no_tokenizer overlap_similarity insertion_argsort
      sample_text sample_summary 0 = Returned hs /\
    len hs
    = Z.max 0 (len (split_into_sentences no_tokenizer sample_text) + 0)%Z.
Proof.
  eapply (top_k_nonpositive_k no_tokenizer overlap_similarity
            insertion_argsort sample_text sample_summary 0).
  - lia.
  - vm_compute. discriminate.
  - unfold overlap_similarity. reflexivity.
  - vm_compute. reflexivity.
  - vm_compute. reflexivity.
Defined.

Lemma extract_pdf_first_raising_page_witness :
  extract_text_from_pdf_fileobj
    (Returned ([PageText (lit "A"); PageNone]
               ++ PageRaises "cannot read page"%string
                  :: [PageText (lit "B")]))
  = Raised "PDF extraction failed: cannot read page"%string.
Proof.
  apply (extract_pdf_first_raising_page [PageText (lit "A"); PageNone]
           [PageText (lit "B")] "cannot read page"%string).
  repeat constructor.
Defined.

Lemma allowed_file_by_extension_witness :
  allowed_file ascii_lower (lit "report.final" ++ dot :: lit "PDF")
  = Returned (existsb (str_eqb (ascii_lower (lit "PDF"))) ALLOWED_EXTENSIONS).
Proof.
  apply (allowed_file_by_extension ascii_lower (lit "report.final")
           (lit "PDF")).
  reflexivity.
Defined.

Lemma top_k_dominates_the_rest_witness :
  exists hs,
    top_k_sentences no_tokenizer overlap_similarity insertion_argsort
      sample_text sample_summary 3 = Returned hs /\
    (forall h, In h hs ->
       score h
       = score_at
           (combined_scores (split_into_sentences no_tokenizer sample_text)
              (map (fun sent =>
                      float_of_nat
                        (length (filter
                           (fun c => existsb (N.eqb c) sample_summary) sent))
                      / float_of_nat (length sent))
                   (split_into_sentences no_tokenizer sample_text)))
           (Z.to_nat (index h))) /\
    (forall j h,
       (j < length (split_into_sentences no_tokenizer sample_text))%nat ->
       ~ In (Z.of_nat j) (map index hs) ->
       In h hs ->
       (score_at
          (combined_scores (split_into_sentences no_tokenizer sample_text)
             (map (fun sent =>
                     float_of_nat
                       (length (filter
                          (fun c => existsb (N.eqb c) sample_summary) sent))
                     / float_of_nat (length sent))
                  (split_into_sentences no_tokenizer sample_text))) j
        <=? score h) = true).
Proof.
  apply (top_k_dominates_the_rest no_tokenizer overlap_similarity
           insertion_argsort sample_text sample_summary 3).
  - vm_compute. reflexivity.
  - vm_compute. reflexivity.
  - reflexivity.
  - vm_compute. reflexivity.
  - vm_compute. reflexivity.
Defined.

End FurtherExamples.
